(** * The PDF requirements-table extractor ([backend/pdf_extractor.py])

    A shallow embedding of [extract_active_requirements_table]: the
    line-oriented scanner that rebuilds the "Active Requirements" table
    from the text of the pages of a PDF, and the properties of it that
    the design document states.

    Conventions of the model.
    - Text is a [string] of characters with a code below 256: the
      code is the Unicode code point, so the characters are those of
      Latin-1 (ASCII, the no-break space, the accented letters).  The
      classes [\s], [\w], [\d] of Python's [re], the whitespace of
      [str.strip] and the case mapping of [str.lower] are Python's on
      these code points; a text with a code point above 255 is outside
      the model.
    - The PDF library is outside the model: what [open] and
      [PyPDF2.PdfReader] do with a path is given as a [pdf_file], and
      [page.extract_text()] as a text or nothing for each page.
    - [logging] calls are recorded, in order, as a list of records,
      whatever the level the configured handler lets through.
    - An exception is a value: a loop body returns a [flow], the
      [try ... except] of the function turns a raised exception into
      its logged, absent result. *)

From Stdlib Require Import String Ascii List Bool Arith PeanoNat Lia.
From Stdlib Require Import ZArith DecimalString Permutation.
Import ListNotations.
Open Scope string_scope.

(** ** Characters *)

Definition code (c : ascii) : nat := nat_of_ascii c.

Definition in_range (lo hi c : ascii) : bool :=
  Nat.leb (code lo) (code c) && Nat.leb (code c) (code hi).

(** [\d]: the decimal digits; below code 256 these are [0-9] only
    (the superscripts and fractions are not decimal digits). *)
Definition is_digit (c : ascii) : bool := in_range "0" "9" c.

(** [[A-Z]] *)
Definition is_upper (c : ascii) : bool := in_range "A" "Z" c.

(** [[a-z]] *)
Definition is_lower (c : ascii) : bool := in_range "a" "z" c.

(** [[a-zA-Z]] *)
Definition is_alpha (c : ascii) : bool := is_lower c || is_upper c.

(** What [str.isalnum] accepts above code 127: the ordinal indicators
    and the micro sign, the superscript digits, the fractions and the
    accented letters (not the multiplication and division signs). *)
Definition is_latin1_alnum (c : ascii) : bool :=
  Ascii.eqb c "170" || in_range "178" "179" c || Ascii.eqb c "181"
  || in_range "185" "186" c || in_range "188" "190" c
  || in_range "192" "214" c || in_range "216" "246" c
  || in_range "248" "255" c.

(** [\w]: the alphanumeric characters and the underscore *)
Definition is_word (c : ascii) : bool :=
  is_alpha c || is_digit c || Ascii.eqb c "_" || is_latin1_alnum c.

(** [\s], and the characters [str.strip()] removes: tab, line feed,
    vertical tab, form feed, carriage return, the four separators
    0x1c-0x1f, the space, the next-line control 0x85 and the no-break
    space 0xa0. *)
Definition is_space (c : ascii) : bool :=
  in_range "009" "013" c || in_range "028" "031" c || Ascii.eqb c " "
  || Ascii.eqb c "133" || Ascii.eqb c "160".

(** [.] (no DOTALL flag): anything but a line feed *)
Definition is_dot (c : ascii) : bool := negb (Ascii.eqb c "010").

(** [[\w-]] *)
Definition is_id_char (c : ascii) : bool := is_word c || Ascii.eqb c "-".

(** [[a-zA-Z\s]] *)
Definition is_label_char (c : ascii) : bool := is_alpha c || is_space c.

(** The capital letters [str.lower] maps: [A-Z] and the accented
    capitals 0xc0-0xde but the multiplication sign 0xd7. *)
Definition has_lower_case (c : ascii) : bool :=
  is_upper c || in_range "192" "214" c || in_range "216" "222" c.

(** [c.lower()], and the case folding of [re.IGNORECASE] *)
Definition to_lower (c : ascii) : ascii :=
  if has_lower_case c then ascii_of_nat (code c + 32) else c.

(** Equality of two characters, under [re.IGNORECASE] when [ic] is set. *)
Definition char_eq (ic : bool) (a b : ascii) : bool :=
  if ic then Ascii.eqb (to_lower a) (to_lower b) else Ascii.eqb a b.

(** ** Strings *)

Definition nl : string := String "010" "".

Definition is_empty (s : string) : bool :=
  match s with "" => true | _ => false end.

Fixpoint all_chars (p : ascii -> bool) (s : string) : bool :=
  match s with
  | "" => true
  | String c s' => p c && all_chars p s'
  end.

(** The first [n] characters of [s]. *)
Fixpoint take (n : nat) (s : string) : string :=
  match n, s with
  | S n', String c s' => String c (take n' s')
  | _, _ => ""
  end.

(** [s.lstrip()] *)
Fixpoint lstrip (s : string) : string :=
  match s with
  | String c s' => if is_space c then lstrip s' else s
  | "" => ""
  end.

(** [s.rstrip()] *)
Fixpoint rstrip (s : string) : string :=
  match s with
  | "" => ""
  | String c s' =>
      match rstrip s' with
      | "" => if is_space c then "" else String c ""
      | r => String c r
      end
  end.

(** [s.strip()] *)
Definition strip (s : string) : string := rstrip (lstrip s).

(** [text.split('\n')]: the pieces between line feeds, at least one. *)
Fixpoint split_lines (s : string) : list string :=
  match s with
  | "" => [""]
  | String c s' =>
      if Ascii.eqb c "010" then "" :: split_lines s'
      else match split_lines s' with
           | l :: ls => String c l :: ls
           | [] => [String c ""]
           end
  end.

(** [" ".join(parts)] *)
Fixpoint join_space (parts : list string) : string :=
  match parts with
  | [] => ""
  | [p] => p
  | p :: ps => p ++ " " ++ join_space ps
  end.

(** The tails of [s] that leave at least one character in front. *)
Fixpoint proper_tails (s : string) : list string :=
  match s with
  | "" => []
  | String _ s' => s' :: proper_tails s'
  end.

(** The last character before a position: [prev] when nothing of [w]
    was read, else the last character of [w]. *)
Fixpoint last_char (prev : option ascii) (w : string) : option ascii :=
  match w with
  | "" => prev
  | String c w' => last_char (Some c) w'
  end.

(** ** Regular expressions

    The fragment of Python's [re] syntax the extractor uses, matched the
    way [re] does: by backtracking, alternatives left to right, a greedy
    quantifier longest first, a lazy one shortest first.  Every
    quantifier of the four patterns applies to a single character
    class, which is what [Rep] offers. *)

Inductive regex : Type :=
| Bol                                   (* ^ *)
| Eol                                   (* $ *)
| WordB                                 (* \b *)
| Lit (s : string)                      (* literal characters *)
| Cls (p : ascii -> bool)               (* one character of a class *)
| Rep (greedy : bool) (lo : nat) (hi : option nat) (p : ascii -> bool)
                                        (* class{lo,hi} and class{lo,hi}? *)
| Seq (r1 r2 : regex)
| Alt (r1 r2 : regex)                   (* r1|r2 *)
| Opt (r : regex)                       (* (?:r)? *)
| Grp (i : nat) (r : regex).            (* the i-th capturing group *)

Definition Chr (c : ascii) : regex := Lit (String c "").
Definition Plus (p : ascii -> bool) : regex := Rep true 1 None p.
Definition Star (p : ascii -> bool) : regex := Rep true 0 None p.
Definition LazyPlus (p : ascii -> bool) : regex := Rep false 1 None p.

Fixpoint sequence (rs : list regex) : regex :=
  match rs with
  | [] => Lit ""
  | [r] => r
  | r :: rs' => Seq r (sequence rs')
  end.

(** The text of the groups matched so far, latest first. *)
Definition groups : Type := list (nat * string).

Fixpoint group (i : nat) (gs : groups) : string :=
  match gs with
  | [] => ""
  | (j, t) :: gs' => if Nat.eqb i j then t else group i gs'
  end.

Definition or_else {A : Type} (a b : option A) : option A :=
  match a with Some x => Some x | None => b end.

(** A position in the subject is the character before it ([None] at the
    start) and the text from it on. *)
Definition at_word_boundary (prev : option ascii) (s : string) : bool :=
  let before := match prev with Some c => is_word c | None => false end in
  let after := match s with String c _ => is_word c | "" => false end in
  xorb before after.

(** [$] without MULTILINE: at the end, or before a line feed that ends
    the subject. *)
Definition at_end (s : string) : bool :=
  match s with
  | "" => true
  | String c "" => Ascii.eqb c "010"
  | _ => false
  end.

Fixpoint lit_match (ic : bool) (l : string) (prev : option ascii) (s : string)
  : option (option ascii * string) :=
  match l with
  | "" => Some (prev, s)
  | String a l' =>
      match s with
      | String c s' => if char_eq ic a c then lit_match ic l' (Some c) s' else None
      | "" => None
      end
  end.

Definition may_repeat (hi : option nat) : bool :=
  match hi with Some 0 => false | _ => true end.

(** The quantifier on a class: between [lo] and [hi] characters of [p],
    then the rest of the pattern [k]. *)
Fixpoint rep_match {A : Type} (greedy : bool) (p : ascii -> bool)
    (lo : nat) (hi : option nat) (prev : option ascii) (s : string)
    (k : option ascii -> string -> option A) {struct s} : option A :=
  let stop := match lo with 0 => k prev s | S _ => None end in
  let more :=
    match s with
    | String c s' =>
        if p c && may_repeat hi
        then rep_match greedy p (pred lo) (option_map pred hi) (Some c) s' k
        else None
    | "" => None
    end in
  if greedy then or_else more stop else or_else stop more.

Definition cont : Type := option ascii -> string -> groups -> option groups.

Fixpoint re_run (ic : bool) (r : regex) (prev : option ascii) (s : string)
    (gs : groups) (k : cont) {struct r} : option groups :=
  match r with
  | Bol => match prev with None => k prev s gs | Some _ => None end
  | Eol => if at_end s then k prev s gs else None
  | WordB => if at_word_boundary prev s then k prev s gs else None
  | Lit l =>
      match lit_match ic l prev s with
      | Some (prev', s') => k prev' s' gs
      | None => None
      end
  | Cls p =>
      match s with
      | String c s' => if p c then k (Some c) s' gs else None
      | "" => None
      end
  | Rep greedy lo hi p =>
      rep_match greedy p lo hi prev s (fun prev' s' => k prev' s' gs)
  | Seq r1 r2 =>
      re_run ic r1 prev s gs (fun prev' s' gs' => re_run ic r2 prev' s' gs' k)
  | Alt r1 r2 =>
      or_else (re_run ic r1 prev s gs k) (re_run ic r2 prev s gs k)
  | Opt r1 =>
      or_else (re_run ic r1 prev s gs k) (k prev s gs)
  | Grp i r1 =>
      re_run ic r1 prev s gs
        (fun prev' s' gs' =>
           k prev' s' ((i, take (String.length s - String.length s') s) :: gs'))
  end.

Definition accept : cont := fun _ _ gs => Some gs.

(** [re.match(r, s)]: a match that starts at the start of [s]. *)
Definition re_match (ic : bool) (r : regex) (s : string) : option groups :=
  re_run ic r None s [] accept.

Fixpoint search_from (ic : bool) (r : regex) (prev : option ascii) (s : string)
  : option groups :=
  match re_run ic r prev s [] accept with
  | Some gs => Some gs
  | None =>
      match s with
      | String c s' => search_from ic r (Some c) s'
      | "" => None
      end
  end.

(** [re.search(r, s)]: the first position of [s] with a match. *)
Definition re_search (ic : bool) (r : regex) (s : string) : option groups :=
  search_from ic r None s.

Definition matched {A : Type} (o : option A) : bool :=
  match o with Some _ => true | None => false end.

(** ** The four patterns of the extractor *)

(** [r'\bActive\s+Requirements\b'], used with [re.IGNORECASE] *)
Definition re_marker : regex :=
  sequence [WordB; Lit "Active"; Plus is_space; Lit "Requirements"; WordB].

(** [r"^\d{1,2}\.\d+\s+|^[A-Z][a-zA-Z\s]+:"] *)
Definition re_boundary : regex :=
  Alt (sequence [Bol; Rep true 1 (Some 2) is_digit; Chr "."; Plus is_digit;
                 Plus is_space])
      (sequence [Bol; Cls is_upper; Plus is_label_char; Chr ":"]).

(** [r"REQ-[\w-]+\s+v\d+"] *)
Definition re_row_start : regex :=
  sequence [Lit "REQ-"; Plus is_id_char; Plus is_space; Chr "v"; Plus is_digit].

(** [\s+\(\w+\)\s*\d+], the body of the optional group of the row
    pattern *)
Definition re_annotation : regex :=
  sequence [Plus is_space; Chr "("; Plus is_word; Chr ")"; Star is_space;
       Plus is_digit].

(** [r"^(REQ-[\w-]+)\s+v(\d+)\s+(.+?)(?:\s+\(\w+\)\s*\d+)?$"] *)
Definition re_row : regex :=
  sequence [Bol; Grp 1 (sequence [Lit "REQ-"; Plus is_id_char]); Plus is_space;
       Chr "v"; Grp 2 (Plus is_digit); Plus is_space;
       Grp 3 (LazyPlus is_dot); Opt re_annotation; Eol].

Definition is_marker (line : string) : bool :=
  matched (re_search true re_marker line).

Definition is_boundary (line : string) : bool :=
  matched (re_match false re_boundary line).

Definition is_row_start (line : string) : bool :=
  matched (re_match false re_row_start line).

(** Lines 66-69: the strict match and the two fields made of its
    groups. *)
Definition parse_row (line : string) : option (string * string) :=
  match re_match false re_row line with
  | Some gs =>
      let unique_id := strip (group 1 gs ++ " v" ++ group 2 gs) in
      let name := strip (group 3 gs) in
      Some (unique_id, name)
  | None => None
  end.

(** A text the optional group of the row pattern takes up to the end of
    the line. *)
Definition is_annotation (a : string) : bool :=
  matched (re_match false (sequence [re_annotation; Eol]) a).

(** Some tail of [title], short of all of it, is such a text. *)
Definition has_trailing_annotation (title : string) : bool :=
  existsb is_annotation (proper_tails title).

(** ** The extractor *)

Inductive exn : Type :=
| FileNotFoundError
| OtherError          (* any other exception of [open] or [PdfReader] *)
| IndexError.

Inductive level : Type := DEBUG | INFO | WARNING | ERROR.

Inductive message : Type :=
| MsgProcessing (page_count : nat)
| MsgPageEmpty (page_num : nat)
| MsgFoundTable (page_num : nat)
| MsgEndOfTable (page_num : nat)
| MsgNotFullMatch (page_num : nat) (line : string)
| MsgExtracted (n_rows : nat)
| MsgNoTable
| MsgFileNotFound (pdf_path : string)
| MsgErrorOccurred (e : exn).

Definition log_record : Type := (level * message)%type.

(** What [open(pdf_path, 'rb')] and [PdfReader] give: an exception, or
    the pages, each with the result of its [extract_text()]. *)
Inductive pdf_file : Type :=
| Missing
| Unreadable
| Pdf (pages : list (option string)).

Record dataframe : Type := mkDataFrame {
  columns : list string;
  rows : list (list string)
}.

(** The local variables of the scan, and the log written so far. *)
Record scan : Type := mkScan {
  capturing : bool;
  current_row : list string;
  data : list (list string);
  log : list log_record
}.

Definition set_capturing (b : bool) (s : scan) : scan :=
  mkScan b (current_row s) (data s) (log s).

Definition set_current_row (r : list string) (s : scan) : scan :=
  mkScan (capturing s) r (data s) (log s).

Definition set_data (d : list (list string)) (s : scan) : scan :=
  mkScan (capturing s) (current_row s) d (log s).

Definition logging (l : level) (m : message) (s : scan) : scan :=
  mkScan (capturing s) (current_row s) (data s) (log s ++ [(l, m)])%list.

(** How a loop body ends: the next iteration, [break], or an
    exception (with the log at that point). *)
Inductive flow : Type :=
| Continue (s : scan)
| Break (s : scan)
| Raise (e : exn) (lg : list log_record).

Definition is_nil {A : Type} (l : list A) : bool :=
  match l with [] => true | _ => false end.

(** [l[i] = v]: IndexError when [i] is out of range. *)
Fixpoint set_item (l : list string) (i : nat) (v : string)
  : option (list string) :=
  match l, i with
  | [], _ => None
  | _ :: l', 0 => Some (v :: l')
  | x :: l', S i' => option_map (cons x) (set_item l' i' v)
  end.

(** [if len(current_row) >= 2: data.append(current_row[:2])] *)
Definition append_if_complete (s : scan) : scan :=
  if Nat.leb 2 (length (current_row s))
  then set_data (data s ++ [firstn 2 (current_row s)])%list s
  else s.

(** Lines 60-63: the row in progress is saved before a new one starts. *)
Definition save_partial_row (s : scan) : scan :=
  if is_nil (current_row s) then s
  else set_current_row [] (append_if_complete s).

(** Lines 40-76: the body of the loop over the lines of a page. *)
Definition process_line (page_num : nat) (s : scan) (raw : string) : flow :=
  let line := strip raw in
  if is_empty line then Continue s
  else if negb (capturing s) && is_marker line then
    Continue (logging INFO (MsgFoundTable page_num) (set_capturing true s))
  else if capturing s then
    if is_boundary line then
      Break (logging INFO (MsgEndOfTable page_num) (set_capturing false s))
    else if is_row_start line then
      let s1 := save_partial_row s in
      match parse_row line with
      | Some (unique_id, name) =>
          Continue (set_current_row [unique_id; name] s1)
      | None =>
          Continue (set_current_row (current_row s1 ++ [line])%list
                      (logging DEBUG (MsgNotFullMatch page_num line) s1))
      end
    else if negb (is_nil (current_row s)) then
      let v := if Nat.ltb 1 (length (current_row s))
               then strip (nth 1 (current_row s) "" ++ " " ++ line)
               else line in
      match set_item (current_row s) 1 v with
      | Some r => Continue (set_current_row r s)
      | None => Raise IndexError (log s)
      end
    else Continue s
  else Continue s.

(** Lines 39-76: the loop over the lines of a page. *)
Fixpoint process_lines (page_num : nat) (s : scan) (lines : list string)
  : flow :=
  match lines with
  | [] => Continue s
  | l :: ls =>
      match process_line page_num s l with
      | Continue s' => process_lines page_num s' ls
      | other => other
      end
  end.

(** Lines 79-81: the row in progress at the end of a page. *)
Definition flush_page (s : scan) : scan :=
  if capturing s && negb (is_nil (current_row s))
     && Nat.leb 2 (length (current_row s))
  then set_current_row [] (set_data (data s ++ [firstn 2 (current_row s)])%list s)
  else s.

(** Lines 33-81: the body of the loop over the pages.  [Continue] and
    [Break] of the inner loop both go on to the end of the body. *)
Definition process_page (page_num : nat) (s : scan) (text : option string)
  : flow :=
  match text with
  | None | Some "" => Continue (logging WARNING (MsgPageEmpty page_num) s)
  | Some t =>
      match process_lines page_num s (split_lines t) with
      | Continue s' | Break s' => Continue (flush_page s')
      | Raise e lg => Raise e lg
      end
  end.

(** Lines 32-81: [for page_num, page in enumerate(pdf_reader.pages, 1)],
    from page number [page_num] on. *)
Fixpoint process_pages (page_num : nat) (s : scan)
    (pages : list (option string)) : flow :=
  match pages with
  | [] => Continue s
  | p :: ps =>
      match process_page page_num s p with
      | Continue s' => process_pages (S page_num) s' ps
      | other => other
      end
  end.

(** Lines 84-85: the row that remains after the last page. *)
Definition finalize (s : scan) : scan :=
  if negb (is_nil (current_row s)) && Nat.leb 2 (length (current_row s))
  then set_data (data s ++ [firstn 2 (current_row s)])%list s
  else s.

Definition headers : list string := ["Unique ID"; "Name"].

(** Lines 24-30: the state before the first page. *)
Definition initial (pages : list (option string)) : scan :=
  mkScan false [] [] [(INFO, MsgProcessing (length pages))].

(** Lines 32-85: the scan of a document that was opened. *)
Definition scan_document (pages : list (option string)) : flow :=
  match process_pages 1 (initial pages) pages with
  | Continue s | Break s => Continue (finalize s)
  | Raise e lg => Raise e lg
  end.

(** Lines 95-100: the two handlers. *)
Definition handle (pdf_path : string) (e : exn) (lg : list log_record)
  : option dataframe * list log_record :=
  match e with
  | FileNotFoundError => (None, (lg ++ [(ERROR, MsgFileNotFound pdf_path)])%list)
  | _ => (None, (lg ++ [(ERROR, MsgErrorOccurred e)])%list)
  end.

(** [extract_active_requirements_table(pdf_path)], where [file] is what
    the path leads to: the value returned and the log written. *)
Definition extract_active_requirements_table (pdf_path : string)
    (file : pdf_file) : option dataframe * list log_record :=
  match file with
  | Missing => handle pdf_path FileNotFoundError []
  | Unreadable => handle pdf_path OtherError []
  | Pdf pages =>
      match scan_document pages with
      | Continue s | Break s =>
          if negb (is_nil (data s)) then
            (Some (mkDataFrame headers (data s)),
             (log s ++ [(INFO, MsgExtracted (length (data s)))])%list)
          else (None, (log s ++ [(WARNING, MsgNoTable)])%list)
      | Raise e lg => handle pdf_path e lg
      end
  end.

(** The text of a page from its lines. *)
Fixpoint join_lines (ls : list string) : string :=
  match ls with
  | [] => ""
  | [l] => l
  | l :: ls' => l ++ nl ++ join_lines ls'
  end.

(** ** The callers of the extractor ([backend/main.py])

    The three services [main.py], [main1.py] and [main2.py] share, line
    for line, the code modelled here: the mapping of the extracted
    table to requirements, the cut of the JSON array out of a model
    response, the grouping of test cases by requirement, and the CSV
    export.  The HTTP layer and the language model are outside. *)

(** [s.lower()] *)
Fixpoint str_lower (s : string) : string :=
  match s with
  | "" => ""
  | String c s' => String (to_lower c) (str_lower s')
  end.

(** [s.split(sep)] for a separator of one character *)
Fixpoint split_on (sep : ascii) (s : string) : list string :=
  match s with
  | "" => [""]
  | String c s' =>
      if Ascii.eqb c sep then "" :: split_on sep s'
      else match split_on sep s' with
           | l :: ls => String c l :: ls
           | [] => [String c ""]
           end
  end.

(** Line 85: [file.filename.lower().split('.')[-1]] *)
Definition file_extension (filename : string) : string :=
  last (split_on "." (str_lower filename)) "".

(** [str(n)] for a natural number *)
Definition str_nat (n : nat) : string :=
  NilEmpty.string_of_uint (Nat.to_uint n).

Fixpoint zeros (n : nat) : string :=
  match n with
  | 0 => ""
  | S n' => String "0" (zeros n')
  end.

(** [f"{n:03d}"] *)
Definition format_03d (n : nat) : string :=
  zeros (3 - String.length (str_nat n)) ++ str_nat n.

Record Requirement : Type := mkRequirement {
  r_id : string;
  r_description : string;
  r_category : option string
}.

(** [row.get(key, default)] on a row of a data frame, given the labels
    of its columns. *)
Fixpoint series_get (labels values : list string) (key default : string)
  : string :=
  match labels, values with
  | l :: ls, v :: vs =>
      if String.eqb l key then v else series_get ls vs key default
  | _, _ => default
  end.

(** [df.empty] *)
Definition df_empty (df : dataframe) : bool :=
  is_nil (rows df) || is_nil (columns df).

(** Lines 92-97: the loop over [df.iterrows()], from row number
    [index] on. *)
Fixpoint rows_to_requirements (labels : list string) (index : nat)
    (rs : list (list string)) : list Requirement :=
  match rs with
  | [] => []
  | row :: rs' =>
      mkRequirement
        (series_get labels row "Unique ID" ("REQ_" ++ format_03d index))
        (series_get labels row "Name" "No description available")
        (Some "Active Requirement")
      :: rows_to_requirements labels (S index) rs'
  end.

(** Lines 90-99: the requirements of the PDF branch of
    [extract_requirements], from what the extractor returned. *)
Definition pdf_requirements (df : option dataframe) : list Requirement :=
  match df with
  | Some d =>
      if negb (df_empty d) then rows_to_requirements (columns d) 0 (rows d)
      else []
  | None => []
  end.

(** [s.find(c)]: the first index of [c], or -1. *)
Fixpoint find_from (c : ascii) (s : string) (i : Z) : Z :=
  match s with
  | "" => (-1)%Z
  | String x s' => if Ascii.eqb x c then i else find_from c s' (i + 1)%Z
  end.

Definition str_find (c : ascii) (s : string) : Z := find_from c s 0%Z.

(** [s.rfind(c)]: the last index of [c], or -1. *)
Fixpoint rfind_from (c : ascii) (s : string) (i : Z) : Z :=
  match s with
  | "" => (-1)%Z
  | String x s' =>
      let r := rfind_from c s' (i + 1)%Z in
      if (r =? -1)%Z then (if Ascii.eqb x c then i else (-1)%Z) else r
  end.

Definition str_rfind (c : ascii) (s : string) : Z := rfind_from c s 0%Z.

(** The text of [s] from its [n]-th character on. *)
Fixpoint drop (n : nat) (s : string) : string :=
  match n, s with
  | S n', String _ s' => drop n' s'
  | _, _ => s
  end.

(** A bound of a slice brought into [0 .. len(s)], as Python does. *)
Definition slice_bound (len i : Z) : Z :=
  if (i <? 0)%Z then Z.max 0 (i + len) else Z.min i len.

(** [s[a:b]] *)
Definition py_slice (a b : Z) (s : string) : string :=
  let len := Z.of_nat (String.length s) in
  let a' := slice_bound len a in
  let b' := slice_bound len b in
  take (Z.to_nat (b' - a')) (drop (Z.to_nat a') s).

(** Lines 223-225 (and 454-456): the part of a model response handed to
    [json.loads]. *)
Definition json_candidate (response_text : string) : string :=
  let start_idx := str_find "[" response_text in
  let end_idx := (str_rfind "]" response_text + 1)%Z in
  if negb (start_idx =? -1)%Z then py_slice start_idx end_idx response_text
  else response_text.

Record TestCase : Type := mkTestCase {
  tc_id : string;
  tc_testCaseId : string;
  tc_description : string;
  tc_preconditions : string;
  tc_steps : list string;
  tc_expectedResult : string;
  tc_testabilityType : string;
  tc_postconditions : string;
  tc_requirementId : string
}.

(** A Python [dict] with string keys, as the list of its items in
    insertion order. *)
Definition dict (V : Type) : Type := list (string * V).

(** [key in d] *)
Fixpoint dict_mem {V : Type} (key : string) (d : dict V) : bool :=
  match d with
  | [] => false
  | (k, _) :: d' => String.eqb k key || dict_mem key d'
  end.

(** [d[key].append(v)], for a key of [d] *)
Fixpoint dict_append {V : Type} (key : string) (v : V) (d : dict (list V))
  : dict (list V) :=
  match d with
  | [] => []
  | (k, l) :: d' =>
      if String.eqb k key then (k, (l ++ [v])%list) :: d'
      else (k, l) :: dict_append key v d'
  end.

(** Lines 295-299: the body of the grouping loop. *)
Definition group_step (d : dict (list TestCase)) (tc : TestCase)
  : dict (list TestCase) :=
  let req_id := tc_requirementId tc in
  let d1 := if negb (dict_mem req_id d) then (d ++ [(req_id, [])])%list
            else d in
  dict_append req_id tc d1.

(** Lines 294-299: [test_cases_by_req] *)
Definition group_by_requirement (test_cases : list TestCase)
  : dict (list TestCase) :=
  fold_left group_step test_cases [].

(** [sep.join(parts)] *)
Fixpoint str_join (sep : string) (parts : list string) : string :=
  match parts with
  | [] => ""
  | [p] => p
  | p :: ps => p ++ sep ++ str_join sep ps
  end.

(** [c in s] *)
Fixpoint has_char (c : ascii) (s : string) : bool :=
  match s with
  | "" => false
  | String x s' => Ascii.eqb x c || has_char c s'
  end.

(** The double quote character. *)
Definition dquote : ascii := "034"%char.

(** [s.replace(q, q + q)] for the double quote [q] *)
Fixpoint double_quotes (s : string) : string :=
  match s with
  | "" => ""
  | String x s' =>
      if Ascii.eqb x dquote then String dquote (String dquote (double_quotes s'))
      else String x (double_quotes s')
  end.

(** Lines 545-549: a cell of the CSV file. *)
Definition escape_cell (cell : string) : string :=
  let cell_str :=
    if has_char dquote cell then double_quotes cell else cell in
  if has_char "," cell_str || has_char dquote cell_str
     || has_char "010" cell_str
  then String dquote (cell_str ++ String dquote "")
  else cell_str.

(** Lines 543-551: a line of the CSV file. *)
Definition csv_line (row : list string) : string :=
  str_join "," (map escape_cell row) ++ nl.

(** Lines 540-551: the text of the CSV file. *)
Fixpoint csv_content (csv_rows : list (list string)) : string :=
  match csv_rows with
  | [] => ""
  | row :: rest => csv_line row ++ csv_content rest
  end.

Definition csv_headers : list string :=
  ["Test Case ID"; "Requirement ID"; "Description"; "Preconditions";
   "Steps"; "Expected Result"; "Postconditions"; "Testability Type"].

(** Lines 527-536: the row of a test case. *)
Definition csv_row (tc : TestCase) : list string :=
  [tc_testCaseId tc; tc_requirementId tc; tc_description tc;
   tc_preconditions tc; str_join "; " (tc_steps tc); tc_expectedResult tc;
   tc_postconditions tc; tc_testabilityType tc].

(** Lines 512-551: the CSV file of [download_selected_test_cases]. *)
Definition selected_csv (test_cases : list TestCase) : string :=
  csv_content (csv_headers :: map csv_row test_cases).

(** Predicates used to state the properties. *)

(** [s] is empty or starts with a character outside [p]: a greedy run
    of [p] cannot go on into [s]. *)
Definition stops (p : ascii -> bool) (s : string) : bool :=
  match s with
  | "" => true
  | String c _ => negb (p c)
  end.

(** A non-empty run of characters of the class [p]. *)
Definition run_of (p : ascii -> bool) (w : string) : bool :=
  negb (is_empty w) && all_chars p w.

Definition starts_with_text (s : string) : bool :=
  match s with
  | String c _ => negb (is_space c)
  | "" => false
  end.

Definition ends_with_text (s : string) : bool :=
  match last_char None s with
  | Some c => negb (is_space c)
  | None => false
  end.

(** A non-empty text with no whitespace at either end. *)
Definition is_trimmed (s : string) : bool :=
  starts_with_text s && ends_with_text s.

(** What a line that went through [strip()] looks like. *)
Definition is_stripped (s : string) : bool := is_empty s || is_trimmed s.

Definition not_char (x c : ascii) : bool := negb (Ascii.eqb c x).

(** The three local variables, without the log. *)
Definition core (s : scan) : bool * list string * list (list string) :=
  (capturing s, current_row s, data s).

Definition is_blank_page (p : option string) : bool :=
  match p with
  | None | Some "" => true
  | Some _ => false
  end.

(** The end of a row-start line after its title: nothing, and then the
    title itself does not end in an annotation, or an annotation. *)
Definition well_formed_tail (title ann : string) : bool :=
  if is_empty ann then negb (has_trailing_annotation title)
  else is_annotation ann.

(** The line [REQ-<id> v<n> <body>], with the whitespace between its
    parts. *)
Definition row_line (id ws1 n ws2 body : string) : string :=
  "REQ-" ++ id ++ ws1 ++ "v" ++ n ++ ws2 ++ body.

(** The parts of a well-formed row-start line
    [REQ-<id> v<n> <title><annotation>]: an identifier of word
    characters and hyphens, a version number, whitespace between the
    parts, a title without whitespace at its ends and without line
    feed, and nothing or an annotation after it. *)
Definition well_formed_row (id ws1 n ws2 title ann : string) : bool :=
  run_of is_id_char id && run_of is_space ws1 && run_of is_digit n
  && run_of is_space ws2 && is_trimmed title
  && all_chars is_dot (title ++ ann) && well_formed_tail title ann.

(** The kinds of line the scanner tells apart once it is capturing, as
    tests on the raw line (the scanner strips it first). *)
Definition boundary_line (raw : string) : bool :=
  negb (is_empty (strip raw)) && is_boundary (strip raw).

Definition continuation_line (raw : string) : bool :=
  negb (is_empty (strip raw)) && negb (is_boundary (strip raw))
  && negb (is_row_start (strip raw)).

(** A row-start line that the strict pattern does not take. *)
Definition mismatch_line (raw : string) : bool :=
  is_row_start (strip raw) && negb (matched (parse_row (strip raw))).

Definition marker_line (raw : string) : bool :=
  negb (is_empty (strip raw)) && is_marker (strip raw).

(** A page none of whose lines is the region marker. *)
Definition quiet_page (p : option string) : bool :=
  match p with
  | None => true
  | Some t => forallb (fun l => negb (is_marker (strip l))) (split_lines t)
  end.

(** A page none of whose lines matches the row-start pattern. *)
Definition rowless_page (p : option string) : bool :=
  match p with
  | None => true
  | Some t => forallb (fun l => negb (is_row_start (strip l))) (split_lines t)
  end.

(** What a loop body did, without the log: how it ended and the local
    variables, or the exception. *)
Definition outcome (f : flow)
  : (bool * (bool * list string * list (list string))) + exn :=
  match f with
  | Continue s => inl (false, core s)
  | Break s => inl (true, core s)
  | Raise e _ => inr e
  end.

(** [sub in s] *)
Definition occurs_in (sub s : string) : bool := matched (index 0 sub s).

(** The row with identifier [u] is in progress after the records [d],
    or it is the last record committed after them. *)
Definition pending_or_committed (u : string) (d : list (list string))
    (s : scan) : Prop :=
  (exists name, current_row s = [u; name] /\ data s = d) \/
  (exists name, current_row s = [] /\ data s = (d ++ [[u; name]])%list).

(** The end-to-end example of the design document, as the text of a
    single page. *)
Definition example_page : string :=
  join_lines ["Active Requirements";
              "REQ-100 v1 Engine shall report speed";
              "to the dashboard module (v2) 14";
              "REQ-101 v1 Brake system shall fail safe"].

(** Predicates on the output of the extractor. *)

(** A Unique ID of the table: [REQ-<id> v<n>]. *)
Definition is_unique_id (u : string) : Prop :=
  exists id n,
    run_of is_id_char id = true /\ run_of is_digit n = true /\
    u = "REQ-" ++ id ++ " v" ++ n.

(** A record of the table: a Unique ID and a name without whitespace at
    its ends. *)
Definition is_record (r : list string) : Prop :=
  exists u name, r = [u; name] /\ is_unique_id u /\ is_stripped name = true.

(** What the row in progress can be: nothing, the single field of a
    line the strict pattern refused, or a record. *)
Definition row_in_progress (r : list string) : Prop :=
  r = [] \/ (exists x, r = [x]) \/ is_record r.

Definition well_formed_scan (s : scan) : Prop :=
  row_in_progress (current_row s) /\ Forall is_record (data s).

(** A line that starts a record when read while capturing. *)
Definition parsed_line (raw : string) : bool :=
  is_row_start (strip raw) && matched (parse_row (strip raw)).

(** The lines the scanner reads on a page. *)
Definition page_lines (p : option string) : list string :=
  match p with
  | None | Some "" => []
  | Some t => split_lines t
  end.

(** The number of lines of the document that can start a record. *)
Definition count_parsed_lines (pages : list (option string)) : nat :=
  length (filter parsed_line (concat (map page_lines pages))).

(** One when the row in progress has its two fields, else zero. *)
Definition pending_count (s : scan) : nat :=
  if Nat.leb 2 (length (current_row s)) then 1 else 0.

(** The keys of a list in the order of their first occurrence. *)
Fixpoint first_seen (keys : list string) : list string :=
  match keys with
  | [] => []
  | k :: ks => k :: filter (fun x => negb (String.eqb x k)) (first_seen ks)
  end.

(** The test cases of a requirement. *)
Definition of_requirement (key : string) (tc : TestCase) : bool :=
  String.eqb (tc_requirementId tc) key.

(** The characters that end a cell in the CSV text. *)
Definition is_separator (c : ascii) : Prop :=
  c = ","%char \/ c = "010"%char.



(** Proof steps that recur: a fact on one character, by cases on its
    eight bits; a pattern written with [sequence] and the derived
    quantifiers, unfolded to its constructors. *)
Ltac by_cases c :=
  destruct c as [[] [] [] [] [] [] [] []]; vm_compute; congruence.

Ltac unseq := cbn [sequence]; unfold Plus, Star, Chr, LazyPlus.
Ltac unseq_in H := cbn [sequence] in H; unfold Plus, Star, Chr, LazyPlus in H.

(** A step that appends nothing to a list. *)
Ltac same_data := exists []; simpl; now rewrite app_nil_r.

(** ** Facts on strings *)

Lemma str_app_nil_r (s : string) : s ++ "" = s.
Proof. induction s as [|c s IH]; simpl; [reflexivity | now rewrite IH]. Qed.

Lemma str_app_assoc (a b c : string) : (a ++ b) ++ c = a ++ b ++ c.
Proof. induction a as [|x a IH]; simpl; [reflexivity | now rewrite IH]. Qed.

Lemma str_length_app (a b : string) :
  String.length (a ++ b) = String.length a + String.length b.
Proof. induction a as [|x a IH]; simpl; [reflexivity | now rewrite IH]. Qed.

Lemma take_app (a b : string) :
  take (String.length (a ++ b) - String.length b) (a ++ b) = a.
Proof.
  rewrite str_length_app.
  replace (String.length a + String.length b - String.length b)
    with (String.length a) by lia.
  induction a as [|x a IH]; simpl.
  - now destruct b.
  - now rewrite IH.
Qed.

Lemma all_chars_app p (a b : string) :
  all_chars p (a ++ b) = all_chars p a && all_chars p b.
Proof.
  induction a as [|x a IH]; simpl; [reflexivity |].
  now rewrite IH, andb_assoc.
Qed.

Lemma all_chars_impl (p q : ascii -> bool) (s : string) :
  (forall c, p c = true -> q c = true) ->
  all_chars p s = true -> all_chars q s = true.
Proof.
  intros Hpq. induction s as [|c s IH]; simpl; [reflexivity |].
  intros H. apply andb_true_iff in H as [Hc Hs].
  now rewrite (Hpq _ Hc), IH.
Qed.

Lemma last_char_app pv (a b : string) :
  last_char pv (a ++ b) = last_char (last_char pv a) b.
Proof. revert pv. induction a as [|x a IH]; intros pv; simpl; auto. Qed.

Lemma last_char_nonempty pv pv' (s : string) :
  s <> "" -> last_char pv s = last_char pv' s.
Proof. destruct s; [congruence | reflexivity]. Qed.

Lemma last_char_all p pv (w : string) :
  all_chars p w = true -> w <> "" ->
  exists c, last_char pv w = Some c /\ p c = true.
Proof.
  revert pv. induction w as [|x w IH]; intros pv Hall Hne; [congruence |].
  simpl in Hall. apply andb_true_iff in Hall as [Hx Hw].
  destruct w as [|y w'].
  - exists x. now split.
  - apply (IH (Some x)); [exact Hw | discriminate].
Qed.

Lemma is_empty_true (s : string) : is_empty s = true -> s = "".
Proof. destruct s; [reflexivity | discriminate]. Qed.

Lemma is_empty_false (s : string) : is_empty s = false -> s <> "".
Proof. destruct s; [discriminate | intros _ H; discriminate H]. Qed.

Lemma run_of_inv p (w : string) :
  run_of p w = true -> all_chars p w = true /\ w <> "".
Proof.
  unfold run_of. intros H. apply andb_true_iff in H as [H1 H2].
  split; [exact H2 |]. apply is_empty_false. now apply negb_true_iff.
Qed.

Lemma run_of_length p (w : string) :
  run_of p w = true -> 1 <= String.length w.
Proof.
  intros H. apply run_of_inv in H as [_ H].
  destruct w; [congruence | simpl; lia].
Qed.

Lemma stops_run (p q : ascii -> bool) (w x : string) :
  (forall c, q c = true -> p c = false) ->
  run_of q w = true -> stops p (w ++ x) = true.
Proof.
  intros Hqp H. apply run_of_inv in H as [Hall Hne].
  destruct w as [|c w]; [congruence |]. simpl in *.
  apply andb_true_iff in Hall as [Hc _].
  now rewrite (Hqp _ Hc).
Qed.

Lemma lstrip_text (s : string) : starts_with_text s = true -> lstrip s = s.
Proof.
  destruct s as [|c s]; simpl; [discriminate |].
  intros H. apply negb_true_iff in H. now rewrite H.
Qed.

Lemma rstrip_text (s : string) : ends_with_text s = true -> rstrip s = s.
Proof.
  unfold ends_with_text.
  induction s as [|c s IH]; simpl; [discriminate |].
  destruct s as [|d s'].
  - simpl. intros H. apply negb_true_iff in H. now rewrite H.
  - intros H. rewrite IH; [reflexivity | exact H].
Qed.

Lemma strip_trimmed (s : string) : is_trimmed s = true -> strip s = s.
Proof.
  unfold is_trimmed, strip. intros H. apply andb_true_iff in H as [H1 H2].
  rewrite lstrip_text by exact H1. now apply rstrip_text.
Qed.

Lemma strip_stripped (s : string) : is_stripped s = true -> strip s = s.
Proof.
  unfold is_stripped. intros H. apply orb_true_iff in H as [H | H].
  - apply is_empty_true in H. now subst.
  - now apply strip_trimmed.
Qed.

Lemma trimmed_nonempty (s : string) : is_trimmed s = true -> s <> "".
Proof. destruct s; [discriminate | intros _ H; discriminate H]. Qed.

Lemma ends_with_text_app (a b : string) :
  ends_with_text b = true -> ends_with_text (a ++ b) = true.
Proof.
  unfold ends_with_text. intros H. rewrite last_char_app.
  destruct b as [|c b]; [discriminate |].
  now rewrite (last_char_nonempty _ None).
Qed.

Lemma starts_with_text_app (a b : string) :
  starts_with_text a = true -> starts_with_text (a ++ b) = true.
Proof. destruct a; [discriminate | auto]. Qed.

(** Joining two trimmed texts with a space gives a trimmed text. *)
Lemma trimmed_join (a b : string) :
  is_trimmed a = true -> is_trimmed b = true ->
  is_trimmed (a ++ " " ++ b) = true.
Proof.
  unfold is_trimmed. intros Ha Hb.
  apply andb_true_iff in Ha as [Ha _]. apply andb_true_iff in Hb as [_ Hb].
  apply andb_true_iff. split.
  - now apply starts_with_text_app.
  - apply ends_with_text_app. now apply (ends_with_text_app " ").
Qed.

(** Two ways to cut a text at a character [c] that does not occur after
    the cut are the same cut. *)
Lemma cut_at_last (c : ascii) (a a' b b' : string) :
  all_chars (not_char c) b = true -> all_chars (not_char c) b' = true ->
  a ++ String c b = a' ++ String c b' -> a = a' /\ b = b'.
Proof.
  intros Hb Hb'. revert a'.
  assert (Hc : not_char c c = false)
    by (unfold not_char; now rewrite Ascii.eqb_refl).
  induction a as [|x a IH]; intros [|y a'] E; simpl in E.
  - now inversion E.
  - inversion E; subst. rewrite all_chars_app in Hb. simpl in Hb.
    rewrite Hc in Hb. rewrite andb_false_r in Hb. discriminate.
  - inversion E; subst. rewrite all_chars_app in Hb'. simpl in Hb'.
    rewrite Hc in Hb'. rewrite andb_false_r in Hb'. discriminate.
  - inversion E; subst. destruct (IH _ H1) as [-> ->]. now split.
Qed.

(** ** Facts on the character classes *)

(** Above code 127: the no-break space is whitespace for [strip] and
    [\s], an accented letter is a word character for [\w] and [\b],
    and [lower] maps the accented capitals. *)
Example strip_no_break_space :
  strip (String "160" "Door shall lock" ++ String "160" "") = "Door shall lock".
Proof. reflexivity. Qed.

Example annotation_with_accented_word :
  parse_row ("REQ-1 v1 Door (" ++ String "233" ") 3")
  = Some ("REQ-1 v1", "Door").
Proof. reflexivity. Qed.

Example identifier_with_accented_letter :
  parse_row ("REQ-" ++ String "196" "1 v1 Door shall lock")
  = Some ("REQ-" ++ String "196" "1 v1", "Door shall lock").
Proof. reflexivity. Qed.

Example marker_with_no_break_space :
  is_marker ("Active" ++ String "160" "Requirements") = true.
Proof. reflexivity. Qed.

Example marker_after_accented_letter :
  is_marker (String "233" "Active Requirements") = false.
Proof. reflexivity. Qed.

Example extension_with_accented_capital :
  file_extension ("file." ++ String "196" "BC") = String "228" "bc".
Proof. reflexivity. Qed.

Lemma space_not_id_char c : is_space c = true -> is_id_char c = false.
Proof. by_cases c. Qed.

Lemma space_not_digit c : is_space c = true -> is_digit c = false.
Proof. by_cases c. Qed.

Lemma digit_not_space c : is_digit c = true -> is_space c = false.
Proof. by_cases c. Qed.

Lemma space_not_paren c : is_space c = true -> not_char "(" c = true.
Proof. by_cases c. Qed.

Lemma word_not_paren c : is_word c = true -> not_char "(" c = true.
Proof. by_cases c. Qed.

Lemma digit_not_paren c : is_digit c = true -> not_char "(" c = true.
Proof. by_cases c. Qed.

Lemma at_end_inv (s : string) : at_end s = true -> s = "" \/ s = nl.
Proof.
  destruct s as [|c [|d s]]; simpl; try discriminate; auto.
  intros H. apply Ascii.eqb_eq in H. subst. now right.
Qed.

Lemma at_end_stops_digit (s : string) :
  at_end s = true -> stops is_digit s = true.
Proof. intros H. destruct (at_end_inv _ H) as [-> | ->]; reflexivity. Qed.

Lemma at_end_no_paren (s : string) :
  at_end s = true -> all_chars (not_char "(") s = true.
Proof. intros H. destruct (at_end_inv _ H) as [-> | ->]; reflexivity. Qed.

Lemma text_stops_space (a b : string) :
  starts_with_text a = true -> stops is_space (a ++ b) = true.
Proof. destruct a; [discriminate | auto]. Qed.

(** ** Facts on the matcher *)

Section Repetition.
Context {A : Type}.
Variable p : ascii -> bool.
Variable k : option ascii -> string -> option A.

(** A greedy quantifier without upper bound takes the whole run when
    the rest of the pattern accepts after it. *)
Lemma rep_greedy_max (w rest : string) (x : A) :
  forall lo pv,
    all_chars p w = true -> lo <= String.length w ->
    stops p rest = true ->
    k (last_char pv w) rest = Some x ->
    rep_match true p lo None pv (w ++ rest) k = Some x.
Proof.
  induction w as [|c w IH]; intros lo pv Hall Hlo Hstop Hk; simpl in *.
  - assert (lo = 0) by lia. subst lo.
    destruct rest as [|d rest']; simpl.
    + exact Hk.
    + simpl in Hstop. apply negb_true_iff in Hstop. rewrite Hstop. simpl.
      exact Hk.
  - apply andb_true_iff in Hall as [Hc Hw]. rewrite Hc. simpl.
    rewrite (IH (pred lo) (Some c)); auto. lia.
Qed.

(** A lazy quantifier stops at the first place, after its minimum,
    where the rest of the pattern accepts. *)
Lemma rep_lazy_scan (w rest : string) (x : A) :
  forall pv,
    all_chars p w = true ->
    (forall w1 w2, w = w1 ++ w2 -> w2 <> "" ->
                   k (last_char pv w1) (w2 ++ rest) = None) ->
    k (last_char pv w) rest = Some x ->
    rep_match false p 0 None pv (w ++ rest) k = Some x.
Proof.
  induction w as [|c w IH]; intros pv Hall Hno Hk.
  - simpl in *. destruct rest; simpl; now rewrite Hk.
  - simpl in Hall. apply andb_true_iff in Hall as [Hc Hw].
    pose proof (Hno "" (String c w) eq_refl) as H0. simpl in H0.
    simpl. rewrite H0 by discriminate.
    rewrite Hc. simpl. apply IH; auto.
    intros w1 w2 E Hne. apply (Hno (String c w1) w2); [| exact Hne].
    simpl. now rewrite E.
Qed.

Lemma rep_lazy_first (w rest : string) (x : A) :
  forall pv,
    all_chars p w = true -> w <> "" ->
    (forall w1 w2, w = w1 ++ w2 -> w1 <> "" -> w2 <> "" ->
                   k (last_char pv w1) (w2 ++ rest) = None) ->
    k (last_char pv w) rest = Some x ->
    rep_match false p 1 None pv (w ++ rest) k = Some x.
Proof.
  intros pv Hall Hne Hno Hk.
  destruct w as [|c w]; [congruence |].
  simpl in Hall. apply andb_true_iff in Hall as [Hc Hw].
  simpl. rewrite Hc. simpl. apply rep_lazy_scan; auto.
  intros w1 w2 E Hne2. apply (Hno (String c w1) w2); [| discriminate | exact Hne2].
  simpl. now rewrite E.
Qed.

(** Whatever a quantifier takes is a run of its class, at least as
    long as its minimum. *)
Lemma rep_sound (greedy : bool) (s : string) (x : A) :
  forall lo hi pv,
    rep_match greedy p lo hi pv s k = Some x ->
    exists w rest,
      s = w ++ rest /\ all_chars p w = true /\ lo <= String.length w /\
      k (last_char pv w) rest = Some x.
Proof.
  assert (Hstop : forall lo pv s0,
             match lo with 0 => k pv s0 | S _ => None end = Some x ->
             exists w rest,
               s0 = w ++ rest /\ all_chars p w = true /\
               lo <= String.length w /\ k (last_char pv w) rest = Some x).
  { intros lo pv s0 H. destruct lo; [| discriminate].
    exists "", s0. simpl. auto. }
  induction s as [|c s IH]; intros lo hi pv H.
  - simpl in H. apply Hstop.
    destruct greedy; simpl in H; [exact H |].
    destruct (match lo with 0 => k pv "" | S _ => None end); [exact H | discriminate].
  - simpl in H.
    set (stop := match lo with 0 => k pv (String c s) | S _ => None end) in *.
    set (more := if p c && may_repeat hi
                 then rep_match greedy p (pred lo) (option_map pred hi) (Some c) s k
                 else None) in *.
    assert (Hcase : more = Some x \/ stop = Some x).
    { destruct greedy; simpl in H.
      - destruct more; [left; exact H | right; exact H].
      - destruct stop; [right; exact H | left; exact H]. }
    destruct Hcase as [Hm | Hs].
    + subst more. destruct (p c) eqn:Hc; [| discriminate].
      destruct (may_repeat hi); [| discriminate]. simpl in Hm.
      destruct (IH _ _ _ Hm) as (w & rest & E & Hall & Hlo & Hk).
      exists (String c w), rest. simpl. rewrite Hc, Hall, E.
      repeat split; auto. lia.
    + apply Hstop. exact Hs.
Qed.
End Repetition.

Lemma lit_match_app (l rest : string) pv :
  lit_match false l pv (l ++ rest) = Some (last_char pv l, rest).
Proof.
  revert pv. induction l as [|c l IH]; intros pv; simpl; [reflexivity |].
  now rewrite Ascii.eqb_refl, IH.
Qed.

Lemma lit_match_sound (l s s' : string) pv pv' :
  lit_match false l pv s = Some (pv', s') -> s = l ++ s'.
Proof.
  revert pv s. induction l as [|c l IH]; intros pv s H; simpl in *.
  - now inversion H.
  - destruct s as [|d s]; [discriminate |].
    destruct (Ascii.eqb c d) eqn:E; [| discriminate].
    apply Ascii.eqb_eq in E. subst d. now rewrite (IH _ _ H).
Qed.

(** The equations of [re_run], one for each construct. *)

Lemma re_run_seq ic r1 r2 pv s gs k :
  re_run ic (Seq r1 r2) pv s gs k =
  re_run ic r1 pv s gs (fun pv' s' gs' => re_run ic r2 pv' s' gs' k).
Proof. reflexivity. Qed.

Lemma re_run_rep ic g lo hi p pv s gs k :
  re_run ic (Rep g lo hi p) pv s gs k =
  rep_match g p lo hi pv s (fun pv' s' => k pv' s' gs).
Proof. reflexivity. Qed.

Lemma re_run_lit l rest pv gs k :
  re_run false (Lit l) pv (l ++ rest) gs k = k (last_char pv l) rest gs.
Proof. simpl. now rewrite lit_match_app. Qed.

Lemma re_run_grp ic i r pv s gs k :
  re_run ic (Grp i r) pv s gs k =
  re_run ic r pv s gs
    (fun pv' s' gs' =>
       k pv' s' ((i, take (String.length s - String.length s') s) :: gs')).
Proof. reflexivity. Qed.

Lemma re_run_opt ic r pv s gs k :
  re_run ic (Opt r) pv s gs k =
  or_else (re_run ic r pv s gs k) (k pv s gs).
Proof. reflexivity. Qed.

Lemma re_run_eol ic pv s gs k :
  re_run ic Eol pv s gs k = if at_end s then k pv s gs else None.
Proof. reflexivity. Qed.

Lemma re_run_bol ic s gs k :
  re_run ic Bol None s gs k = k None s gs.
Proof. reflexivity. Qed.

Lemma re_run_lit_sound l pv s gs k x :
  re_run false (Lit l) pv s gs k = Some x ->
  exists pv' rest, s = l ++ rest /\ k pv' rest gs = Some x.
Proof.
  simpl. destruct (lit_match false l pv s) as [[pv' s']|] eqn:E; [| discriminate].
  intros H. exists pv', s'. split; [| exact H].
  eapply lit_match_sound; eauto.
Qed.

Lemma re_run_rep_sound ic g lo hi p pv s gs k x :
  re_run ic (Rep g lo hi p) pv s gs k = Some x ->
  exists w rest,
    s = w ++ rest /\ all_chars p w = true /\ lo <= String.length w /\
    k (last_char pv w) rest gs = Some x.
Proof. rewrite re_run_rep. intros H. now apply rep_sound in H. Qed.

Lemma run_of_intro p (w : string) :
  all_chars p w = true -> 1 <= String.length w -> run_of p w = true.
Proof.
  intros H L. unfold run_of. rewrite H.
  destruct w; [simpl in L; lia | reflexivity].
Qed.

(** The optional group of the row pattern takes exactly the texts
    [\s+ ( \w+ ) \s* \d+]. *)
Lemma annotation_complete (ws w ws' d rest : string) pv gs (k : cont) x :
  run_of is_space ws = true -> run_of is_word w = true ->
  all_chars is_space ws' = true -> run_of is_digit d = true ->
  stops is_digit rest = true ->
  (forall pv', k pv' rest gs = Some x) ->
  re_run false re_annotation pv
    (ws ++ "(" ++ w ++ ")" ++ ws' ++ d ++ rest) gs k = Some x.
Proof.
  intros Hws Hw Hws' Hd Hrest Hk.
  unfold re_annotation. unseq.
  rewrite re_run_seq, re_run_rep.
  apply rep_greedy_max;
    [apply (run_of_inv _ _ Hws) | eapply run_of_length; eassumption
    | reflexivity |].
  rewrite re_run_seq, re_run_lit, re_run_seq, re_run_rep.
  apply rep_greedy_max;
    [apply (run_of_inv _ _ Hw) | eapply run_of_length; eassumption
    | reflexivity |].
  rewrite re_run_seq, re_run_lit, re_run_seq, re_run_rep.
  apply rep_greedy_max;
    [exact Hws' | lia
    | apply (stops_run _ is_digit); [apply digit_not_space | exact Hd] |].
  rewrite re_run_rep.
  apply rep_greedy_max;
    [apply (run_of_inv _ _ Hd) | eapply run_of_length; eassumption
    | exact Hrest |].
  apply Hk.
Qed.

Lemma annotation_sound pv s gs (k : cont) x :
  re_run false re_annotation pv s gs k = Some x ->
  exists ws w ws' d rest pv',
    s = ws ++ "(" ++ w ++ ")" ++ ws' ++ d ++ rest /\
    run_of is_space ws = true /\ run_of is_word w = true /\
    all_chars is_space ws' = true /\ run_of is_digit d = true /\
    k pv' rest gs = Some x.
Proof.
  unfold re_annotation. intros H. unseq_in H.
  rewrite re_run_seq in H.
  apply re_run_rep_sound in H as (ws & r1 & E1 & Hws & Lws & H).
  rewrite re_run_seq in H. apply re_run_lit_sound in H as (pv1 & r2 & E2 & H).
  rewrite re_run_seq in H.
  apply re_run_rep_sound in H as (w & r3 & E3 & Hw & Lw & H).
  rewrite re_run_seq in H. apply re_run_lit_sound in H as (pv2 & r4 & E4 & H).
  rewrite re_run_seq in H.
  apply re_run_rep_sound in H as (ws' & r5 & E5 & Hws' & _ & H).
  apply re_run_rep_sound in H as (d & rest & E6 & Hd & Ld & H).
  exists ws, w, ws', d, rest, (last_char (last_char pv2 ws') d).
  subst. repeat split; auto using run_of_intro.
Qed.

Lemma is_annotation_intro (ws w ws' d rest : string) :
  run_of is_space ws = true -> run_of is_word w = true ->
  all_chars is_space ws' = true -> run_of is_digit d = true ->
  at_end rest = true ->
  is_annotation (ws ++ "(" ++ w ++ ")" ++ ws' ++ d ++ rest) = true.
Proof.
  intros Hws Hw Hws' Hd Hrest.
  unfold is_annotation, re_match. unseq. rewrite re_run_seq.
  rewrite (annotation_complete ws w ws' d rest None [] _ []); auto.
  - now apply at_end_stops_digit.
  - intros pv'. rewrite re_run_eol, Hrest. reflexivity.
Qed.

Lemma is_annotation_inv (a : string) :
  is_annotation a = true ->
  exists ws w ws' d rest,
    a = ws ++ "(" ++ w ++ ")" ++ ws' ++ d ++ rest /\
    run_of is_space ws = true /\ run_of is_word w = true /\
    all_chars is_space ws' = true /\ run_of is_digit d = true /\
    at_end rest = true.
Proof.
  unfold is_annotation, re_match. unseq. rewrite re_run_seq.
  destruct (re_run false re_annotation None a [] _) as [g|] eqn:E;
    [| discriminate].
  intros _. apply annotation_sound in E
    as (ws & w & ws' & d & rest & pv' & Ea & Hws & Hw & Hws' & Hd & Hk).
  exists ws, w, ws', d, rest. repeat split; auto.
  rewrite re_run_eol in Hk. destruct (at_end rest); [reflexivity | discriminate].
Qed.


Lemma take_app2 (a b c : string) :
  take (String.length (a ++ b ++ c) - String.length c) (a ++ b ++ c) = a ++ b.
Proof. rewrite <- str_app_assoc. apply take_app. Qed.

Lemma proper_tails_in (w1 w2 : string) :
  w1 <> "" -> In w2 (proper_tails (w1 ++ w2)).
Proof.
  induction w1 as [|c w1 IH]; intros Hne; [congruence |].
  simpl. destruct w1 as [|d w1'].
  - now left.
  - right. apply IH. discriminate.
Qed.

Lemma ends_with_text_run p (w : string) :
  (forall c, p c = true -> is_space c = false) ->
  run_of p w = true -> ends_with_text w = true.
Proof.
  intros Hp H. apply run_of_inv in H as [Hall Hne].
  destruct (last_char_all p None w Hall Hne) as (c & E & Hc).
  unfold ends_with_text. now rewrite E, (Hp _ Hc).
Qed.

(** Inside a well-formed row-start line no place before the end of the
    title lets the optional group, or the end of the line, match. *)
Lemma no_early_end (title ann w1 w2 : string) :
  is_trimmed title = true ->
  all_chars is_dot (title ++ ann) = true ->
  well_formed_tail title ann = true ->
  title = w1 ++ w2 -> w1 <> "" -> w2 <> "" ->
  is_annotation (w2 ++ ann) = false /\ at_end (w2 ++ ann) = false.
Proof.
  intros Htrim Hdot Htail E Hw1 Hw2.
  assert (Hlast : ends_with_text w2 = true).
  { unfold is_trimmed in Htrim. apply andb_true_iff in Htrim as [_ H].
    subst title. unfold ends_with_text in *. rewrite last_char_app in H.
    now rewrite (last_char_nonempty _ None) in H. }
  split.
  - destruct (is_annotation (w2 ++ ann)) eqn:Ha; [exfalso | reflexivity].
    unfold well_formed_tail in Htail.
    destruct (is_empty ann) eqn:Hann.
    + apply is_empty_true in Hann. subst ann. rewrite str_app_nil_r in Ha.
      apply negb_true_iff in Htail.
      unfold has_trailing_annotation in Htail.
      assert (Hex : existsb is_annotation (proper_tails title) = true).
      { apply existsb_exists. exists w2. split; [| exact Ha].
        subst title. now apply proper_tails_in. }
      congruence.
    + apply is_annotation_inv in Ha
        as (ws & w & ws' & d & rest & Ea & Hws & Hw & Hws' & Hd & Hrest).
      apply is_annotation_inv in Htail
        as (ws3 & w3 & ws4 & d3 & rest3 & Eb & Hws3 & Hw3 & Hws4 & Hd3 & Hrest3).
      subst ann. rewrite <- str_app_assoc in Ea. simpl in Ea.
      assert (Hnp : forall w ws' d rest,
                 run_of is_word w = true -> all_chars is_space ws' = true ->
                 run_of is_digit d = true -> at_end rest = true ->
                 all_chars (not_char "(") (w ++ String ")" (ws' ++ d ++ rest)) = true).
      { intros w0 ws0 d0 rest0 H1 H2 H3 H4.
        rewrite all_chars_app. simpl. rewrite !all_chars_app.
        rewrite (all_chars_impl _ _ _ word_not_paren (proj1 (run_of_inv _ _ H1))).
        rewrite (all_chars_impl _ _ _ space_not_paren H2).
        rewrite (all_chars_impl _ _ _ digit_not_paren (proj1 (run_of_inv _ _ H3))).
        now rewrite at_end_no_paren. }
      apply cut_at_last in Ea as [Ea _]; auto.
      apply run_of_inv in Hws as [Hws _]. rewrite <- Ea in Hws.
      rewrite all_chars_app in Hws. apply andb_true_iff in Hws as [Hsp _].
      destruct (last_char_all _ None _ Hsp Hw2) as (c & Ec & Hc).
      unfold ends_with_text in Hlast. rewrite Ec, Hc in Hlast. discriminate.
  - destruct (at_end (w2 ++ ann)) eqn:He; [exfalso | reflexivity].
    destruct w2 as [|c w2']; [congruence |].
    assert (Hc : is_dot c = true).
    { subst title. rewrite str_app_assoc, !all_chars_app in Hdot. simpl in Hdot.
      apply andb_true_iff in Hdot as [_ H]. apply andb_true_iff in H as [H _].
      now apply andb_true_iff in H as [H _]. }
    simpl in He. destruct (w2' ++ ann); [| discriminate].
    unfold is_dot in Hc. rewrite He in Hc. discriminate.
Qed.


Lemma dot_last (s : string) :
  all_chars is_dot s = true -> last_char None s <> Some "010"%char.
Proof.
  intros H. destruct s as [|c s]; [discriminate |].
  destruct (last_char_all _ None _ H) as (x & E & Hx); [discriminate |].
  rewrite E. intros H1. inversion H1. subst. discriminate.
Qed.

(** *** The patterns on a well-formed row-start line *)

Section RowLine.
Variables id ws1 n ws2 title ann : string.
Hypothesis Hid : run_of is_id_char id = true.
Hypothesis Hws1 : run_of is_space ws1 = true.
Hypothesis Hn : run_of is_digit n = true.
Hypothesis Hws2 : run_of is_space ws2 = true.
Hypothesis Htitle : is_trimmed title = true.
Hypothesis Hdot : all_chars is_dot (title ++ ann) = true.
Hypothesis Htail : well_formed_tail title ann = true.

Lemma row_line_not_boundary : is_boundary (row_line id ws1 n ws2 (title ++ ann)) = false.
Proof. reflexivity. Qed.

Lemma row_line_is_row_start : is_row_start (row_line id ws1 n ws2 (title ++ ann)) = true.
Proof.
  unfold is_row_start, re_match, re_row_start, row_line. unseq.
  rewrite re_run_seq, re_run_lit, re_run_seq, re_run_rep.
  erewrite rep_greedy_max; [reflexivity | apply (run_of_inv _ _ Hid)
    | eapply run_of_length; eassumption
    | apply (stops_run _ is_space); [apply space_not_id_char | exact Hws1] |].
  rewrite re_run_seq, re_run_rep.
  apply rep_greedy_max; [apply (run_of_inv _ _ Hws1)
    | eapply run_of_length; eassumption | reflexivity |].
  rewrite re_run_seq, re_run_lit, re_run_rep.
  apply rep_greedy_max; [apply (run_of_inv _ _ Hn)
    | eapply run_of_length; eassumption
    | apply (stops_run _ is_space); [apply space_not_digit | exact Hws2] |].
  reflexivity.
Qed.

Lemma tail_end : ann = "" \/ (ann <> "" /\ is_annotation ann = true).
Proof.
  unfold well_formed_tail in Htail. destruct ann; [now left | right].
  split; [discriminate | exact Htail].
Qed.

Lemma row_line_match :
  re_match false re_row (row_line id ws1 n ws2 (title ++ ann))
  = Some [(3, title); (2, n); (1, "REQ-" ++ id)].
Proof.
  unfold re_match, re_row, row_line. unseq.
  rewrite re_run_seq, re_run_bol, re_run_seq, re_run_grp.
  rewrite re_run_seq, re_run_lit, re_run_rep.
  apply rep_greedy_max; [apply (run_of_inv _ _ Hid)
    | eapply run_of_length; eassumption
    | apply (stops_run _ is_space); [apply space_not_id_char | exact Hws1] |].
  rewrite take_app2.
  rewrite re_run_seq, re_run_rep.
  apply rep_greedy_max; [apply (run_of_inv _ _ Hws1)
    | eapply run_of_length; eassumption | reflexivity |].
  rewrite re_run_seq, re_run_lit, re_run_seq, re_run_grp, re_run_rep.
  apply rep_greedy_max; [apply (run_of_inv _ _ Hn)
    | eapply run_of_length; eassumption
    | apply (stops_run _ is_space); [apply space_not_digit | exact Hws2] |].
  rewrite take_app.
  rewrite re_run_seq, re_run_rep.
  apply rep_greedy_max; [apply (run_of_inv _ _ Hws2)
    | eapply run_of_length; eassumption
    | apply text_stops_space; unfold is_trimmed in Htitle;
      now apply andb_true_iff in Htitle as [H _] |].
  rewrite re_run_seq, re_run_grp, re_run_rep.
  apply rep_lazy_first.
  - rewrite all_chars_app in Hdot. now apply andb_true_iff in Hdot as [H _].
  - now apply trimmed_nonempty.
  - intros w1 w2 E Hw1 Hw2.
    destruct (no_early_end title ann w1 w2) as [Hno Hend]; auto.
    rewrite re_run_seq, re_run_opt, re_run_eol, Hend.
    unfold is_annotation, re_match in Hno. unseq_in Hno.
    rewrite re_run_seq in Hno.
    match goal with
    | |- or_else ?a None = None => destruct a as [g|] eqn:Ea; [| reflexivity]
    end.
    apply annotation_sound in Ea
      as (ws & w & ws' & d & rest & pv' & Es & Hws & Hw & Hws' & Hd & Hk).
    rewrite re_run_eol in Hk.
    destruct (at_end rest) eqn:Hrest; [| discriminate].
    rewrite Es in Hno.
    rewrite (annotation_complete ws w ws' d rest None [] _ []) in Hno;
      auto; [discriminate | now apply at_end_stops_digit |].
    intros pv0. now rewrite re_run_eol, Hrest.
  - rewrite take_app, re_run_seq, re_run_opt.
    destruct tail_end as [-> | [Hne Ha]].
    + reflexivity.
    + apply is_annotation_inv in Ha
        as (ws & w & ws' & d & rest & Ea & Hws & Hw & Hws' & Hd & Hrest).
      assert (rest = "") as ->.
      { destruct (at_end_inv _ Hrest) as [-> | ->]; [reflexivity |].
        exfalso. apply (dot_last _ Hdot).
        rewrite Ea, !last_char_app. reflexivity. }
      rewrite Ea.
      rewrite (annotation_complete ws w ws' d "" _ _ _
                 [(3, title); (2, n); (1, "REQ-" ++ id)]); auto.
Qed.

Lemma row_line_trimmed : is_trimmed (row_line id ws1 n ws2 (title ++ ann)) = true.
Proof.
  unfold is_trimmed. apply andb_true_iff. split; [reflexivity |].
  unfold row_line.
  do 6 apply ends_with_text_app.
  destruct tail_end as [-> | [Hne Ha]].
  - rewrite str_app_nil_r. unfold is_trimmed in Htitle.
    now apply andb_true_iff in Htitle as [_ H].
  - apply is_annotation_inv in Ha
      as (ws & w & ws' & d & rest & Ea & Hws & Hw & Hws' & Hd & Hrest).
    assert (rest = "") as ->.
    { destruct (at_end_inv _ Hrest) as [-> | ->]; [reflexivity |].
      exfalso. apply (dot_last _ Hdot).
      rewrite Ea, !last_char_app. reflexivity. }
    rewrite Ea, str_app_nil_r. do 6 apply ends_with_text_app.
    apply (ends_with_text_run is_digit); [apply digit_not_space | exact Hd].
Qed.

Lemma row_line_parse :
  parse_row (row_line id ws1 n ws2 (title ++ ann))
  = Some ("REQ-" ++ id ++ " v" ++ n, title).
Proof.
  unfold parse_row. rewrite row_line_match. cbn [group Nat.eqb].
  rewrite (strip_trimmed title) by exact Htitle.
  rewrite str_app_assoc, strip_trimmed; [reflexivity |].
  unfold is_trimmed. apply andb_true_iff. split; [reflexivity |].
  do 3 apply ends_with_text_app.
  apply (ends_with_text_run is_digit); [apply digit_not_space | exact Hn].
Qed.
End RowLine.


(** ** Facts on [strip] *)

Lemma lstrip_spaces (pre x : string) :
  all_chars is_space pre = true -> lstrip (pre ++ x) = lstrip x.
Proof.
  induction pre as [|c pre IH]; simpl; [reflexivity |].
  intros H. apply andb_true_iff in H as [Hc Hp]. rewrite Hc. now apply IH.
Qed.

Lemma rstrip_all_spaces (post : string) :
  all_chars is_space post = true -> rstrip post = "".
Proof.
  induction post as [|c post IH]; simpl; [reflexivity |].
  intros H. apply andb_true_iff in H as [Hc Hp]. now rewrite IH, Hc.
Qed.

Lemma rstrip_spaces (x post : string) :
  all_chars is_space post = true -> rstrip (x ++ post) = rstrip x.
Proof.
  intros H. induction x as [|c x IH]; simpl.
  - now apply rstrip_all_spaces.
  - now rewrite IH.
Qed.

(** Whitespace around a trimmed text is what [strip] removes. *)
Lemma strip_padded (pre x post : string) :
  all_chars is_space pre = true -> all_chars is_space post = true ->
  is_trimmed x = true -> strip (pre ++ x ++ post) = x.
Proof.
  intros Hpre Hpost Hx. unfold strip. rewrite lstrip_spaces by exact Hpre.
  unfold is_trimmed in Hx. apply andb_true_iff in Hx as [H1 H2].
  rewrite lstrip_text by now apply starts_with_text_app.
  rewrite rstrip_spaces by exact Hpost. now apply rstrip_text.
Qed.

Lemma lstrip_starts (s : string) :
  lstrip s = "" \/ starts_with_text (lstrip s) = true.
Proof.
  induction s as [|c s IH]; simpl; [now left |].
  destruct (is_space c) eqn:E; [exact IH | right]. simpl. now rewrite E.
Qed.

Lemma rstrip_ends (s : string) :
  rstrip s = "" \/ ends_with_text (rstrip s) = true.
Proof.
  induction s as [|c s IH]; simpl; [now left |].
  destruct (rstrip s) as [|d r] eqn:E.
  - destruct (is_space c) eqn:Ec; [now left | right].
    unfold ends_with_text. simpl. now rewrite Ec.
  - right. destruct IH as [IH | IH]; [discriminate |]. exact IH.
Qed.

Lemma rstrip_starts (s : string) :
  starts_with_text s = true ->
  rstrip s <> "" /\ starts_with_text (rstrip s) = true.
Proof.
  destruct s as [|c s]; simpl; [discriminate |]. intros H.
  destruct (rstrip s).
  - apply negb_true_iff in H. rewrite H. simpl. rewrite H. split; [discriminate | reflexivity].
  - simpl. rewrite H. split; [discriminate | reflexivity].
Qed.

Lemma strip_is_stripped (s : string) : is_stripped (strip s) = true.
Proof.
  unfold is_stripped, strip, is_trimmed.
  destruct (lstrip_starts s) as [E | E].
  - rewrite E. reflexivity.
  - destruct (rstrip_starts _ E) as [Hne Hs]. rewrite Hs.
    destruct (rstrip_ends (lstrip s)) as [E2 | E2]; [congruence |].
    rewrite E2. apply orb_true_r.
Qed.

Lemma stripped_cases (s : string) :
  is_stripped s = true -> s = "" \/ is_trimmed s = true.
Proof.
  unfold is_stripped. intros H. apply orb_true_iff in H as [H | H].
  - left. now apply is_empty_true.
  - now right.
Qed.

Lemma strip_nonempty_trimmed (raw : string) :
  is_empty (strip raw) = false -> is_trimmed (strip raw) = true.
Proof.
  intros H. destruct (stripped_cases _ (strip_is_stripped raw)) as [E | E].
  - rewrite E in H. discriminate.
  - exact E.
Qed.

(** The name of a row after its continuation lines, as the loop builds
    it, is the trimmed join of the title and the lines. *)
Lemma fold_join (ls : list string) :
  forall nm,
    is_stripped nm = true ->
    Forall (fun l => is_trimmed l = true) ls ->
    fold_left (fun a l => strip (a ++ " " ++ l)) ls nm =
    strip (join_space (nm :: ls)).
Proof.
  induction ls as [|l ls IH]; intros nm Hnm Hls.
  - simpl. symmetry. now apply strip_stripped.
  - inversion Hls as [|? ? Hl Hls']; subst.
    cbn [fold_left]. rewrite IH; [| apply strip_is_stripped | exact Hls'].
    destruct (stripped_cases _ Hnm) as [-> | Hn].
    + change (strip ("" ++ " " ++ l)) with (strip l).
      rewrite (strip_trimmed l) by exact Hl.
      change (join_space ("" :: l :: ls)) with (" " ++ join_space (l :: ls)).
      reflexivity.
    + rewrite (strip_trimmed (nm ++ " " ++ l)) by now apply trimmed_join.
      f_equal. destruct ls as [|l2 ls]; [reflexivity |].
      cbn [join_space]. now rewrite !str_app_assoc.
Qed.


(** ** The steps of the scanner *)

(** A line that matches the row-start pattern starts with [REQ-], and
    so is not empty and not a boundary line. *)
Lemma row_start_prefix (l : string) :
  is_row_start l = true -> exists rest, l = "REQ-" ++ rest.
Proof.
  unfold is_row_start, re_match, re_row_start. unseq. rewrite re_run_seq.
  destruct (re_run false (Lit "REQ-") None l [] _) as [g|] eqn:E; [| discriminate].
  intros _. apply re_run_lit_sound in E as (pv' & rest & El & _).
  now exists rest.
Qed.

Lemma row_start_not_boundary (l : string) :
  is_row_start l = true -> is_boundary l = false.
Proof. intros H. destruct (row_start_prefix l H) as [rest ->]. reflexivity. Qed.

Lemma row_start_not_empty (l : string) :
  is_row_start l = true -> is_empty l = false.
Proof. intros H. destruct (row_start_prefix l H) as [rest ->]. reflexivity. Qed.

Lemma process_line_blank pn s raw :
  is_empty (strip raw) = true -> process_line pn s raw = Continue s.
Proof. intros H. unfold process_line. now rewrite H. Qed.

Lemma process_line_idle pn s raw :
  capturing s = false -> is_marker (strip raw) = false ->
  process_line pn s raw = Continue s.
Proof.
  intros Hc Hm. unfold process_line. rewrite Hc, Hm. simpl.
  now destruct (is_empty (strip raw)).
Qed.

Lemma process_line_marker pn s raw :
  capturing s = false -> marker_line raw = true ->
  process_line pn s raw =
  Continue (logging INFO (MsgFoundTable pn) (set_capturing true s)).
Proof.
  unfold marker_line. intros Hc H. apply andb_true_iff in H as [He Hm].
  apply negb_true_iff in He. unfold process_line. now rewrite He, Hc, Hm.
Qed.

Lemma process_line_boundary pn s raw :
  capturing s = true -> boundary_line raw = true ->
  process_line pn s raw =
  Break (logging INFO (MsgEndOfTable pn) (set_capturing false s)).
Proof.
  unfold boundary_line. intros Hc H. apply andb_true_iff in H as [He Hb].
  apply negb_true_iff in He. unfold process_line. now rewrite He, Hc, Hb.
Qed.

Lemma process_line_parsed pn s raw u name :
  capturing s = true -> is_row_start (strip raw) = true ->
  parse_row (strip raw) = Some (u, name) ->
  process_line pn s raw =
  Continue (set_current_row [u; name] (save_partial_row s)).
Proof.
  intros Hc Hr Hp. unfold process_line.
  rewrite (row_start_not_empty _ Hr), Hc, (row_start_not_boundary _ Hr), Hr, Hp.
  reflexivity.
Qed.

Lemma save_partial_row_empty s : current_row (save_partial_row s) = [].
Proof.
  unfold save_partial_row. destruct (current_row s) eqn:E; simpl; [exact E | reflexivity].
Qed.

Lemma process_line_mismatch pn s raw :
  capturing s = true -> is_row_start (strip raw) = true ->
  parse_row (strip raw) = None ->
  process_line pn s raw =
  Continue (set_current_row [strip raw]
              (logging DEBUG (MsgNotFullMatch pn (strip raw))
                 (save_partial_row s))).
Proof.
  intros Hc Hr Hp. unfold process_line.
  rewrite (row_start_not_empty _ Hr), Hc, (row_start_not_boundary _ Hr), Hr, Hp.
  now rewrite save_partial_row_empty.
Qed.

Lemma process_line_continuation pn s raw u name :
  capturing s = true -> continuation_line raw = true ->
  current_row s = [u; name] ->
  process_line pn s raw =
  Continue (set_current_row [u; strip (name ++ " " ++ strip raw)] s).
Proof.
  unfold continuation_line. intros Hc H Hrow.
  apply andb_true_iff in H as [H Hr]. apply andb_true_iff in H as [He Hb].
  apply negb_true_iff in He, Hb, Hr.
  unfold process_line. rewrite He, Hc, Hb, Hr, Hrow. reflexivity.
Qed.

(** The slip of line 76: with a single field in the row, index 1 is
    out of range. *)
Lemma process_line_short_row pn s raw x :
  capturing s = true -> continuation_line raw = true ->
  current_row s = [x] ->
  process_line pn s raw = Raise IndexError (log s).
Proof.
  unfold continuation_line. intros Hc H Hrow.
  apply andb_true_iff in H as [H Hr]. apply andb_true_iff in H as [He Hb].
  apply negb_true_iff in He, Hb, Hr.
  unfold process_line. rewrite He, Hc, Hb, Hr, Hrow. reflexivity.
Qed.

Lemma process_line_no_row pn s raw :
  capturing s = true -> continuation_line raw = true ->
  current_row s = [] ->
  process_line pn s raw = Continue s.
Proof.
  unfold continuation_line. intros Hc H Hrow.
  apply andb_true_iff in H as [H Hr]. apply andb_true_iff in H as [He Hb].
  apply negb_true_iff in He, Hb, Hr.
  unfold process_line. rewrite He, Hc, Hb, Hr, Hrow. reflexivity.
Qed.

Lemma process_lines_app pn s s' pre post :
  process_lines pn s pre = Continue s' ->
  process_lines pn s (pre ++ post)%list = process_lines pn s' post.
Proof.
  revert s. induction pre as [|l pre IH]; intros s H; simpl in *.
  - now inversion H.
  - destruct (process_line pn s l); try discriminate. now apply IH.
Qed.

(** The name after the continuation lines of a row. *)
Lemma process_lines_continuations pn conts :
  forall s u name,
    capturing s = true -> current_row s = [u; name] ->
    forallb continuation_line conts = true ->
    process_lines pn s conts =
    Continue (set_current_row
                [u; fold_left (fun a l => strip (a ++ " " ++ l))
                      (map strip conts) name] s).
Proof.
  induction conts as [|c conts IH]; intros s u name Hc Hrow H.
  - simpl. destruct s. simpl in *. now subst.
  - simpl in H. apply andb_true_iff in H as [H1 H2].
    cbn [process_lines]. rewrite (process_line_continuation pn s c u name); auto.
    rewrite (IH _ u (strip (name ++ " " ++ strip c))); auto.
Qed.

Lemma continuation_trimmed conts :
  forallb continuation_line conts = true ->
  Forall (fun l => is_trimmed l = true) (map strip conts).
Proof.
  induction conts as [|c conts IH]; simpl; intros H; constructor.
  - apply andb_true_iff in H as [H _]. unfold continuation_line in H.
    apply andb_true_iff in H as [H _]. apply andb_true_iff in H as [H _].
    apply strip_nonempty_trimmed. now apply negb_true_iff.
  - apply IH. now apply andb_true_iff in H as [_ H].
Qed.

Lemma parse_row_stripped l u name :
  parse_row l = Some (u, name) -> is_stripped name = true.
Proof.
  unfold parse_row. destruct (re_match false re_row l); [| discriminate].
  intros H. inversion H. apply strip_is_stripped.
Qed.


(** ** The commit sites

    A row in progress with two fields is what each of the three commit
    sites appends to the output. *)

Lemma flush_page_commits s u name :
  capturing s = true -> current_row s = [u; name] ->
  flush_page s = mkScan true [] (data s ++ [[u; name]])%list (log s).
Proof.
  intros Hc Hr. unfold flush_page, set_current_row, set_data.
  rewrite Hc, Hr. reflexivity.
Qed.

Lemma save_partial_row_commits s u name :
  current_row s = [u; name] ->
  save_partial_row s =
  mkScan (capturing s) [] (data s ++ [[u; name]])%list (log s).
Proof.
  intros Hr. unfold save_partial_row, append_if_complete, set_current_row, set_data.
  rewrite Hr. reflexivity.
Qed.

Lemma finalize_commits s u name :
  current_row s = [u; name] ->
  finalize s =
  mkScan (capturing s) [u; name] (data s ++ [[u; name]])%list (log s).
Proof.
  intros Hr. unfold finalize, set_data. rewrite Hr. reflexivity.
Qed.

Lemma well_formed_row_inv id ws1 n ws2 title ann :
  well_formed_row id ws1 n ws2 title ann = true ->
  run_of is_id_char id = true /\ run_of is_space ws1 = true /\
  run_of is_digit n = true /\ run_of is_space ws2 = true /\
  is_trimmed title = true /\ all_chars is_dot (title ++ ann) = true /\
  well_formed_tail title ann = true.
Proof.
  unfold well_formed_row. intros H.
  rewrite !andb_true_iff in H. tauto.
Qed.

(** ** The properties of the design document *)

(** C4.  A well-formed row-start line [REQ-<id> v<n> <title>], with or
    without a trailing [(word) number] annotation and whatever the
    whitespace around it and between its parts, read while capturing,
    makes the row in progress the record whose identifier is
    [REQ-<id> v<n>] exactly and whose name is the title, without the
    annotation; that record is what the end of the page or of the
    document then appends to the output. *)
Theorem row_start_line_fields pn s lead id ws1 n ws2 title ann trail :
  capturing s = true ->
  all_chars is_space lead = true -> all_chars is_space trail = true ->
  well_formed_row id ws1 n ws2 title ann = true ->
  let record := ["REQ-" ++ id ++ " v" ++ n; title] in
  let s' := set_current_row record (save_partial_row s) in
  process_line pn s (lead ++ row_line id ws1 n ws2 (title ++ ann) ++ trail)
  = Continue s'
  /\ data (flush_page s') = (data s' ++ [record])%list
  /\ data (finalize s') = (data s' ++ [record])%list.
Proof.
  intros Hc Hlead Htrail Hwf record s'.
  apply well_formed_row_inv in Hwf
    as (Hid & Hws1 & Hn & Hws2 & Htitle & Hdot & Htail).
  assert (Hstrip : strip (lead ++ row_line id ws1 n ws2 (title ++ ann) ++ trail)
                   = row_line id ws1 n ws2 (title ++ ann)).
  { apply strip_padded; auto. now apply row_line_trimmed. }
  split; [| split].
  - apply process_line_parsed; rewrite ?Hstrip; auto.
    + now apply row_line_is_row_start.
    + now apply row_line_parse.
  - erewrite flush_page_commits; [reflexivity | | reflexivity].
    unfold s', save_partial_row, append_if_complete.
    destruct (is_nil (current_row s)); [exact Hc |].
    now destruct (Nat.leb 2 (length (current_row s))).
  - erewrite finalize_commits; reflexivity.
Qed.

Lemma row_start_line_fields_witness :
  capturing (mkScan true ["REQ-99 v3"; "Horn shall sound"] [] []) = true /\
  all_chars is_space "  " = true /\ all_chars is_space " " = true /\
  well_formed_row "100-A" " " "12" "  " "Engine shall report speed" " (v2) 14"
  = true /\
  process_line 1 (mkScan true ["REQ-99 v3"; "Horn shall sound"] [] [])
    "  REQ-100-A v12  Engine shall report speed (v2) 14 "
  = Continue (mkScan true ["REQ-100-A v12"; "Engine shall report speed"]
                [["REQ-99 v3"; "Horn shall sound"]] []).
Proof.
  do 4 (split; [reflexivity |]).
  apply (row_start_line_fields 1
           (mkScan true ["REQ-99 v3"; "Horn shall sound"] [] [])
           "  " "100-A" " " "12" "  " "Engine shall report speed"
           " (v2) 14" " "); reflexivity.
Defined.

(** The name of a parsed row after its continuation lines, and the two
    places that append the record while capturing is on. *)
Lemma parsed_row_continuations pn s raw conts u title :
  capturing s = true ->
  is_row_start (strip raw) = true ->
  parse_row (strip raw) = Some (u, title) ->
  forallb continuation_line conts = true ->
  let name := strip (join_space (title :: map strip conts)) in
  let s' := set_current_row [u; name] (save_partial_row s) in
  process_lines pn s (raw :: conts) = Continue s'
  /\ data (save_partial_row s') = (data s' ++ [[u; name]])%list
  /\ data (flush_page s') = (data s' ++ [[u; name]])%list.
Proof.
  intros Hc Hr Hp Hconts name s'.
  assert (Hcap : capturing (save_partial_row s) = true).
  { unfold save_partial_row, append_if_complete.
    destruct (is_nil (current_row s)); [exact Hc |].
    now destruct (Nat.leb 2 (length (current_row s))). }
  split; [| split].
  - cbn [process_lines]. rewrite (process_line_parsed pn s raw u title); auto.
    rewrite (process_lines_continuations pn conts _ u title); auto.
    unfold s', name. rewrite fold_join.
    + reflexivity.
    + eapply parse_row_stripped; eauto.
    + now apply continuation_trimmed.
  - erewrite save_partial_row_commits; reflexivity.
  - erewrite flush_page_commits; [reflexivity | exact Hcap | reflexivity].
Qed.

Lemma save_partial_row_log s : log (save_partial_row s) = log s.
Proof.
  unfold save_partial_row, append_if_complete.
  destruct (is_nil (current_row s)); [reflexivity |].
  now destruct (Nat.leb 2 (length (current_row s))).
Qed.

Lemma save_partial_row_capturing s :
  capturing (save_partial_row s) = capturing s.
Proof.
  unfold save_partial_row, append_if_complete.
  destruct (is_nil (current_row s)); [reflexivity |].
  now destruct (Nat.leb 2 (length (current_row s))).
Qed.

(** C5, on the code.  A row-start line read while capturing and
    followed by continuation lines (non-empty lines that are neither
    boundary nor row-start lines).  When the strict pattern parses the
    line, the row in progress gets the name made of the title and the
    continuation lines, in order, joined by single spaces and trimmed,
    and the next row-start line or the end of the page appends that
    record to the output.  When the strict pattern refuses the line (an
    identifier and a version with the title on the next line), the
    first continuation line raises the IndexError of line 76 instead of
    becoming the name. *)
Theorem continuation_after_row_start pn s raw c cs :
  capturing s = true ->
  is_row_start (strip raw) = true ->
  forallb continuation_line (c :: cs) = true ->
  match parse_row (strip raw) with
  | Some (u, title) =>
      let name := strip (join_space (title :: map strip (c :: cs))) in
      let s' := set_current_row [u; name] (save_partial_row s) in
      process_lines pn s (raw :: c :: cs) = Continue s' /\
      data (save_partial_row s') = (data s' ++ [[u; name]])%list /\
      data (flush_page s') = (data s' ++ [[u; name]])%list
  | None =>
      process_lines pn s (raw :: c :: cs)
      = Raise IndexError
          (log s ++ [(DEBUG, MsgNotFullMatch pn (strip raw))])%list
  end.
Proof.
  intros Hc Hr Hconts.
  destruct (parse_row (strip raw)) as [[u title]|] eqn:Hp.
  - now apply parsed_row_continuations.
  - cbn [process_lines].
    rewrite (process_line_mismatch pn s raw Hc Hr Hp).
    simpl in Hconts. apply andb_true_iff in Hconts as [Hcl _].
    rewrite (process_line_short_row pn _ c (strip raw)); auto.
    + simpl. now rewrite save_partial_row_log.
    + simpl. now rewrite save_partial_row_capturing.
Qed.

Lemma continuation_after_row_start_witness :
  capturing (mkScan true [] [] [(INFO, MsgProcessing 1); (INFO, MsgFoundTable 1)])
  = true /\
  is_row_start (strip "REQ-101 v1") = true /\
  forallb continuation_line ["Brake system shall fail safe"] = true /\
  parse_row (strip "REQ-101 v1") = None /\
  process_lines 1
    (mkScan true [] [] [(INFO, MsgProcessing 1); (INFO, MsgFoundTable 1)])
    ["REQ-101 v1"; "Brake system shall fail safe"]
  = Raise IndexError
      [(INFO, MsgProcessing 1); (INFO, MsgFoundTable 1);
       (DEBUG, MsgNotFullMatch 1 "REQ-101 v1")].
Proof.
  do 4 (split; [reflexivity |]).
  exact (continuation_after_row_start 1
           (mkScan true [] [] [(INFO, MsgProcessing 1); (INFO, MsgFoundTable 1)])
           "REQ-101 v1" "Brake system shall fail safe" []
           eq_refl eq_refl eq_refl).
Defined.

(** C6, as the code has it.  On the example of the design document the
    output has the two records in order, and the name of the first one
    is the title followed by the whole continuation line: the
    annotation [(v2) 14] of the continuation line stays in the name. *)
Theorem example_output path :
  fst (extract_active_requirements_table path (Pdf [Some example_page]))
  = Some (mkDataFrame ["Unique ID"; "Name"]
            [["REQ-100 v1";
              "Engine shall report speed to the dashboard module (v2) 14"];
             ["REQ-101 v1"; "Brake system shall fail safe"]]).
Proof. reflexivity. Qed.

(** C6, as stated: the output with the annotation removed from the
    first name is not what the extractor returns. *)
Lemma example_claimed_output_not_produced :
  fst (extract_active_requirements_table "requirements.pdf"
         (Pdf [Some example_page]))
  <> Some (mkDataFrame ["Unique ID"; "Name"]
             [["REQ-100 v1";
               "Engine shall report speed to the dashboard module"];
              ["REQ-101 v1"; "Brake system shall fail safe"]]).
Proof. vm_compute. discriminate. Qed.


(** *** Pages without marker, pages without row-start line *)

Lemma quiet_lines pn s ls :
  capturing s = false ->
  forallb (fun l => negb (is_marker (strip l))) ls = true ->
  process_lines pn s ls = Continue s.
Proof.
  intros Hc. induction ls as [|l ls IH]; simpl; [reflexivity |].
  intros H. apply andb_true_iff in H as [Hl Hls].
  apply negb_true_iff in Hl.
  rewrite process_line_idle by assumption. now apply IH.
Qed.

Lemma flush_page_idle s : capturing s = false -> flush_page s = s.
Proof. intros H. unfold flush_page. now rewrite H. Qed.

Lemma process_page_text pn s t :
  t <> "" ->
  process_page pn s (Some t) =
  match process_lines pn s (split_lines t) with
  | Continue s' | Break s' => Continue (flush_page s')
  | Raise e lg => Raise e lg
  end.
Proof. destruct t; [congruence | reflexivity]. Qed.

Lemma quiet_page_core pn s p :
  capturing s = false -> quiet_page p = true ->
  exists s', process_page pn s p = Continue s' /\ core s' = core s.
Proof.
  intros Hc Hq. destruct p as [[|c t]|].
  - eexists. split; reflexivity.
  - exists s. split; [| reflexivity].
    rewrite process_page_text by discriminate.
    unfold quiet_page in Hq. rewrite (quiet_lines pn s _ Hc Hq).
    now rewrite flush_page_idle.
  - eexists. split; reflexivity.
Qed.

Lemma quiet_pages_core ps :
  forall pn s,
    capturing s = false -> forallb quiet_page ps = true ->
    exists s', process_pages pn s ps = Continue s' /\ core s' = core s.
Proof.
  induction ps as [|p ps IH]; intros pn s Hc H; simpl in *.
  - exists s. now split.
  - apply andb_true_iff in H as [Hp Hps].
    destruct (quiet_page_core pn s p Hc Hp) as (s1 & E1 & C1).
    rewrite E1.
    assert (Hc1 : capturing s1 = false).
    { unfold core in C1. inversion C1. congruence. }
    destruct (IH (S pn) s1 Hc1 Hps) as (s2 & E2 & C2).
    exists s2. split; [exact E2 | congruence].
Qed.

Lemma finalize_core s s' :
  core s = core s' -> data (finalize s) = data (finalize s').
Proof.
  unfold core. intros H. inversion H as [[Hc Hr Hd]].
  unfold finalize, set_data. rewrite Hr, Hd.
  now destruct (negb (is_nil (current_row s')) && Nat.leb 2 (length (current_row s'))).
Qed.

Section Rowless.
Variable u : string.
Variable d : list (list string).






Lemma finalize_pending s :
  pending_or_committed u d s ->
  exists name, data (finalize s) = (d ++ [[u; name]])%list.
Proof.
  intros [(nm & Hrow & Hd) | (nm & Hrow & Hd)]; exists nm;
    unfold finalize; rewrite Hrow; simpl; congruence.
Qed.
End Rowless.

Lemma split_lines_empty_single : split_lines "" = [""].
Proof. reflexivity. Qed.


(** *** The page number and the log do not steer the scan *)

Lemma process_line_core pn1 pn2 s1 s2 l :
  core s1 = core s2 ->
  outcome (process_line pn1 s1 l) = outcome (process_line pn2 s2 l).
Proof.
  destruct s1 as [c1 r1 d1 l1], s2 as [c2 r2 d2 l2]. unfold core. simpl.
  intros H. inversion H. subst. unfold process_line. simpl.
  destruct (is_empty (strip l)); [reflexivity |].
  destruct c2; simpl.
  - destruct (is_boundary (strip l)); [reflexivity |].
    destruct (is_row_start (strip l)).
    + destruct (parse_row (strip l)) as [[u nm]|];
        destruct r2 as [|x [|y r]]; reflexivity.
    + destruct r2 as [|x [|y r]]; reflexivity.
  - destruct (is_marker (strip l)); reflexivity.
Qed.

Lemma outcome_cases f1 f2 :
  outcome f1 = outcome f2 ->
  (exists s1 s2, f1 = Continue s1 /\ f2 = Continue s2 /\ core s1 = core s2) \/
  (exists s1 s2, f1 = Break s1 /\ f2 = Break s2 /\ core s1 = core s2) \/
  (exists e l1 l2, f1 = Raise e l1 /\ f2 = Raise e l2).
Proof.
  destruct f1 as [s1|s1|e1 l1], f2 as [s2|s2|e2 l2]; simpl; intros H;
    inversion H.
  - left. exists s1, s2. repeat split. unfold core. congruence.
  - right. left. exists s1, s2. repeat split. unfold core. congruence.
  - right. right. exists e2, l1, l2. auto.
Qed.

Lemma process_lines_core ls :
  forall pn1 pn2 s1 s2,
    core s1 = core s2 ->
    outcome (process_lines pn1 s1 ls) = outcome (process_lines pn2 s2 ls).
Proof.
  induction ls as [|l ls IH]; intros pn1 pn2 s1 s2 H; simpl.
  - now rewrite H.
  - destruct (outcome_cases _ _ (process_line_core pn1 pn2 s1 s2 l H))
      as [(a & b & E1 & E2 & Hc) | [(a & b & E1 & E2 & Hc) | (e & a & b & E1 & E2)]];
      rewrite E1, E2; simpl; auto. now rewrite Hc.
Qed.

Lemma flush_page_core s1 s2 :
  core s1 = core s2 -> core (flush_page s1) = core (flush_page s2).
Proof.
  destruct s1 as [c1 r1 d1 l1], s2 as [c2 r2 d2 l2]. unfold core. simpl.
  intros H. inversion H. subst.
  destruct c2; destruct r2 as [|x [|y r]]; reflexivity.
Qed.

Lemma process_page_core pn1 pn2 s1 s2 p :
  core s1 = core s2 ->
  outcome (process_page pn1 s1 p) = outcome (process_page pn2 s2 p).
Proof.
  intros H. destruct p as [[|c t]|].
  - simpl. unfold core in *. simpl. now rewrite H.
  - rewrite !process_page_text by discriminate.
    destruct (outcome_cases _ _
                (process_lines_core (split_lines (String c t)) pn1 pn2 s1 s2 H))
      as [(a & b & E1 & E2 & Hc) | [(a & b & E1 & E2 & Hc) | (e & a & b & E1 & E2)]];
      rewrite E1, E2; simpl; auto; now rewrite (flush_page_core _ _ Hc).
  - simpl. unfold core in *. simpl. now rewrite H.
Qed.

Lemma process_pages_core ps :
  forall pn1 pn2 s1 s2,
    core s1 = core s2 ->
    outcome (process_pages pn1 s1 ps) = outcome (process_pages pn2 s2 ps).
Proof.
  induction ps as [|p ps IH]; intros pn1 pn2 s1 s2 H; simpl.
  - now rewrite H.
  - destruct (outcome_cases _ _ (process_page_core pn1 pn2 s1 s2 p H))
      as [(a & b & E1 & E2 & Hc) | [(a & b & E1 & E2 & Hc) | (e & a & b & E1 & E2)]];
      rewrite E1, E2; simpl; auto. now rewrite Hc.
Qed.

Lemma process_page_blank pn s p :
  is_blank_page p = true ->
  process_page pn s p = Continue (logging WARNING (MsgPageEmpty pn) s).
Proof. destruct p as [[|c t]|]; [reflexivity | discriminate | reflexivity]. Qed.

Lemma blank_page_removed before :
  forall pn1 pn2 s1 s2 p after,
    is_blank_page p = true -> core s1 = core s2 ->
    outcome (process_pages pn1 s1 (before ++ p :: after)%list)
    = outcome (process_pages pn2 s2 (before ++ after)%list).
Proof.
  induction before as [|b before IH]; intros pn1 pn2 s1 s2 p after Hp H.
  - cbn [app process_pages]. rewrite (process_page_blank _ _ _ Hp).
    now apply process_pages_core.
  - cbn [app process_pages].
    destruct (outcome_cases _ _ (process_page_core pn1 pn2 s1 s2 b H))
      as [(x & y & E1 & E2 & Hc) | [(x & y & E1 & E2 & Hc) | (e & x & y & E1 & E2)]];
      rewrite E1, E2; simpl; auto. now rewrite Hc.
Qed.

Lemma handle_returns_none path e lg : fst (handle path e lg) = None.
Proof. now destruct e. Qed.

Lemma extract_value path ps1 ps2 :
  outcome (process_pages 1 (initial ps1) ps1)
  = outcome (process_pages 1 (initial ps2) ps2) ->
  fst (extract_active_requirements_table path (Pdf ps1))
  = fst (extract_active_requirements_table path (Pdf ps2)).
Proof.
  intros H. unfold extract_active_requirements_table, scan_document.
  destruct (outcome_cases _ _ H)
    as [(a & b & E1 & E2 & Hc) | [(a & b & E1 & E2 & Hc) | (e & a & b & E1 & E2)]];
    rewrite E1, E2; rewrite ?handle_returns_none; try reflexivity;
    rewrite (finalize_core _ _ Hc);
    now destruct (negb (is_nil (data (finalize b)))).
Qed.

(** C8.  When the lines of a page have been read and capturing is
    still on, the row in progress, if it has its two fields, is
    appended to the output there and then: the next page starts with
    the record committed, no row in progress, and capturing still on. *)
Theorem page_end_commits_row pn s0 t s next :
  t <> "" ->
  process_lines pn s0 (split_lines t) = Continue s ->
  capturing s = true -> 2 <= length (current_row s) ->
  let s' := mkScan true [] (data s ++ [firstn 2 (current_row s)])%list (log s) in
  process_page pn s0 (Some t) = Continue s' /\
  process_pages pn s0 (Some t :: next) = process_pages (S pn) s' next.
Proof.
  intros Ht Hl Hc Hlen s'.
  assert (Hp : process_page pn s0 (Some t) = Continue s').
  { rewrite process_page_text by exact Ht. rewrite Hl. f_equal.
    unfold flush_page, set_current_row, set_data. rewrite Hc. simpl.
    destruct (current_row s) as [|x [|y r]]; simpl in Hlen; try lia.
    reflexivity. }
  split; [exact Hp |]. cbn [process_pages]. now rewrite Hp.
Qed.

Lemma page_end_commits_row_witness :
  join_lines ["Active Requirements"; "REQ-1 v1 Door shall lock"] <> "" /\
  process_lines 1 (mkScan false [] [] [])
    (split_lines (join_lines ["Active Requirements"; "REQ-1 v1 Door shall lock"]))
  = Continue (mkScan true ["REQ-1 v1"; "Door shall lock"] []
                [(INFO, MsgFoundTable 1)]) /\
  capturing (mkScan true ["REQ-1 v1"; "Door shall lock"] []
               [(INFO, MsgFoundTable 1)]) = true /\
  2 <= length (current_row (mkScan true ["REQ-1 v1"; "Door shall lock"] []
                              [(INFO, MsgFoundTable 1)])) /\
  process_pages 1 (mkScan false [] [] [])
    [Some (join_lines ["Active Requirements"; "REQ-1 v1 Door shall lock"]);
     Some "when the vehicle moves"]
  = process_pages 2
      (mkScan true [] [["REQ-1 v1"; "Door shall lock"]] [(INFO, MsgFoundTable 1)])
      [Some "when the vehicle moves"].
Proof.
  split; [discriminate |]. do 2 (split; [reflexivity |]).
  split; [simpl; lia |].
  apply (page_end_commits_row 1 (mkScan false [] [] [])
           (join_lines ["Active Requirements"; "REQ-1 v1 Door shall lock"])
           (mkScan true ["REQ-1 v1"; "Door shall lock"] []
              [(INFO, MsgFoundTable 1)])
           [Some "when the vehicle moves"]);
    [discriminate | reflexivity | reflexivity | simpl; lia].
Defined.

(** C9.  A page whose text is absent or empty is skipped with a
    warning: the three variables of the scan are left as they were, the
    scan goes on with the next page, and the value returned for the
    document is the one returned for the document without that page. *)
Theorem blank_page_skipped pn s p rest path before after :
  is_blank_page p = true ->
  process_page pn s p = Continue (logging WARNING (MsgPageEmpty pn) s) /\
  core (logging WARNING (MsgPageEmpty pn) s) = core s /\
  process_pages pn s (p :: rest)
  = process_pages (S pn) (logging WARNING (MsgPageEmpty pn) s) rest /\
  fst (extract_active_requirements_table path (Pdf (before ++ p :: after)%list))
  = fst (extract_active_requirements_table path (Pdf (before ++ after)%list)).
Proof.
  intros Hp. split; [now apply process_page_blank |].
  split; [reflexivity |]. split.
  - cbn [process_pages]. now rewrite process_page_blank.
  - apply extract_value. now apply blank_page_removed.
Qed.

Lemma blank_page_skipped_witness :
  is_blank_page None = true /\
  process_pages 2 (mkScan true [] [["REQ-1 v1"; "Door shall lock"]] [])
    [None; Some "REQ-2 v1 Horn shall sound"]
  = process_pages 3
      (mkScan true [] [["REQ-1 v1"; "Door shall lock"]]
         [(WARNING, MsgPageEmpty 2)])
      [Some "REQ-2 v1 Horn shall sound"].
Proof.
  split; [reflexivity |].
  apply (blank_page_skipped 2
           (mkScan true [] [["REQ-1 v1"; "Door shall lock"]] [])
           None [Some "REQ-2 v1 Horn shall sound"] "requirements.pdf" [] []).
  reflexivity.
Defined.


(** C10, as the code has it.  A record in progress when a boundary line
    ends capturing is not flushed at the end of that page; pages without
    the marker leave it as it is; once the marker turns capturing on
    again a continuation line is appended to its name.  It is appended
    to the output at one of three places only: a row-start line read
    while capturing, the end of a page on which capturing is on, and the
    end of the document. *)
Theorem held_record_life s u name :
  current_row s = [u; name] ->
  (capturing s = false ->
   flush_page s = s /\
   (forall pn p, quiet_page p = true ->
      exists s', process_page pn s p = Continue s' /\ core s' = core s) /\
   (forall pn m c, marker_line m = true -> continuation_line c = true ->
      process_lines pn s [m; c]
      = Continue (mkScan true [u; strip (name ++ " " ++ strip c)] (data s)
                    (log s ++ [(INFO, MsgFoundTable pn)])%list))) /\
  (forall pn l s',
      process_line pn s l = Continue s' \/ process_line pn s l = Break s' ->
      data s' = data s \/
      (capturing s = true /\ is_row_start (strip l) = true /\
       data s' = (data s ++ [[u; name]])%list)) /\
  (data (flush_page s) = data s \/
   (capturing s = true /\
    data (flush_page s) = (data s ++ [[u; name]])%list)) /\
  data (finalize s) = (data s ++ [[u; name]])%list.
Proof.
  intros Hrow. split; [| split; [| split]].
  - intros Hc. split; [now apply flush_page_idle |]. split.
    + intros pn p Hq. now apply quiet_page_core.
    + intros pn m c Hm Hcont. cbn [process_lines].
      rewrite (process_line_marker pn s m Hc Hm).
      rewrite (process_line_continuation pn _ c u name); auto.
  - intros pn l s' H. unfold process_line in H.
    destruct (is_empty (strip l)).
    { left. destruct H as [H | H]; now inversion H. }
    destruct (capturing s) eqn:Hc; simpl in H.
    + destruct (is_boundary (strip l)).
      { left. destruct H as [H | H]; now inversion H. }
      destruct (is_row_start (strip l)) eqn:Hr.
      * right. split; [reflexivity |]. split; [reflexivity |].
        rewrite (save_partial_row_commits s u name Hrow) in H.
        destruct (parse_row (strip l)) as [[u' nm']|];
          destruct H as [H | H]; now inversion H.
      * left. rewrite Hrow in H. simpl in H.
        destruct H as [H | H]; now inversion H.
    + left. destruct (is_marker (strip l));
        destruct H as [H | H]; now inversion H.
  - destruct (capturing s) eqn:Hc.
    + right. split; [reflexivity |].
      now rewrite (flush_page_commits s u name Hc Hrow).
    + left. now rewrite flush_page_idle.
  - now rewrite (finalize_commits s u name Hrow).
Qed.

Lemma held_record_life_witness :
  current_row (mkScan false ["REQ-1 v1"; "Door shall lock"] []
                 [(INFO, MsgEndOfTable 1)])
  = ["REQ-1 v1"; "Door shall lock"] /\
  data (finalize (mkScan false ["REQ-1 v1"; "Door shall lock"] []
                    [(INFO, MsgEndOfTable 1)]))
  = [["REQ-1 v1"; "Door shall lock"]].
Proof.
  split; [reflexivity |].
  apply (held_record_life
           (mkScan false ["REQ-1 v1"; "Door shall lock"] []
              [(INFO, MsgEndOfTable 1)])
           "REQ-1 v1" "Door shall lock" eq_refl).
Defined.

(** C10, as stated: "committed only at the next row-start line or at
    the end of the document" would keep the output as it is over pages
    without row-start line.  The second page of this document has the
    marker and a continuation line, no row-start line; at its end the
    record held since the boundary line of the first page is in the
    output, a third page still to come. *)
Lemma held_record_committed_at_page_end :
  ~ (forall pn s pages s',
        capturing s = false -> 2 <= length (current_row s) ->
        forallb rowless_page pages = true ->
        process_pages pn s pages = Continue s' ->
        data s' = data s).
Proof.
  intros H.
  specialize (H 2
    (mkScan false ["REQ-1 v1"; "Door shall lock"] []
       [(INFO, MsgProcessing 3); (INFO, MsgFoundTable 1);
        (INFO, MsgEndOfTable 1)])
    [Some (join_lines ["Active Requirements"; "when the vehicle moves"])]
    (mkScan true [] [["REQ-1 v1"; "Door shall lock when the vehicle moves"]]
       [(INFO, MsgProcessing 3); (INFO, MsgFoundTable 1);
        (INFO, MsgEndOfTable 1); (INFO, MsgFoundTable 2)])
    eq_refl (le_n 2) eq_refl eq_refl).
  discriminate H.
Qed.

(** C1, as the code has it.  A line read while capturing that matches
    the row-start pattern and not the strict one ends the row in
    progress like any row-start line (the row is appended to the output
    if it has its two fields, the line is not added to it), becomes the
    single field of a new row in progress, is logged at debug level, and
    the scan goes on.  A row with a single field is committed nowhere:
    the end of a page and the end of the document leave the output as it
    is, and the next row-start line drops it. *)
Theorem mismatch_line_kept_as_single_field pn s raw :
  capturing s = true -> mismatch_line raw = true ->
  let s' := mkScan true [strip raw] (data (save_partial_row s))
              (log s ++ [(DEBUG, MsgNotFullMatch pn (strip raw))])%list in
  process_line pn s raw = Continue s' /\
  data (save_partial_row s)
  = (data s ++ (if Nat.leb 2 (length (current_row s))
                then [firstn 2 (current_row s)] else []))%list /\
  flush_page s' = s' /\ finalize s' = s' /\
  (forall raw2 u title,
      is_row_start (strip raw2) = true ->
      parse_row (strip raw2) = Some (u, title) ->
      process_line pn s' raw2
      = Continue (mkScan true [u; title] (data s') (log s'))).
Proof.
  intros Hc Hm s'. unfold mismatch_line in Hm.
  apply andb_true_iff in Hm as [Hr Hp]. apply negb_true_iff in Hp.
  assert (Hnone : parse_row (strip raw) = None)
    by (destruct (parse_row (strip raw)); [discriminate | reflexivity]).
  assert (Hsave : save_partial_row s
                  = mkScan true [] (data (save_partial_row s)) (log s)).
  { unfold save_partial_row, append_if_complete, set_current_row, set_data.
    destruct s as [c r d l]. simpl in *. subst c.
    destruct r as [|x [|y r]]; reflexivity. }
  split; [| split; [| split; [| split]]].
  - rewrite (process_line_mismatch pn s raw Hc Hr Hnone).
    rewrite Hsave. reflexivity.
  - unfold save_partial_row, append_if_complete, set_current_row, set_data.
    destruct (current_row s) as [|x [|y r]]; simpl;
      now rewrite ?app_nil_r.
  - reflexivity.
  - reflexivity.
  - intros raw2 u title Hr2 Hp2.
    now rewrite (process_line_parsed pn s' raw2 u title eq_refl Hr2 Hp2).
Qed.

Lemma mismatch_line_kept_as_single_field_witness :
  capturing (mkScan true ["REQ-100 v1"; "Engine shall report speed"] [] [])
  = true /\
  mismatch_line "REQ-101 v1" = true /\
  process_line 1
    (mkScan true ["REQ-100 v1"; "Engine shall report speed"] [] [])
    "REQ-101 v1"
  = Continue (mkScan true ["REQ-101 v1"]
                [["REQ-100 v1"; "Engine shall report speed"]]
                [(DEBUG, MsgNotFullMatch 1 "REQ-101 v1")]).
Proof.
  do 2 (split; [reflexivity |]).
  apply (mismatch_line_kept_as_single_field 1
           (mkScan true ["REQ-100 v1"; "Engine shall report speed"] [] [])
           "REQ-101 v1"); reflexivity.
Defined.

(** C1, as stated: the line would be kept, as a continuation of the
    record in progress.  Here the record in progress is committed
    without it and no field of the output has the text of the line. *)
Lemma mismatch_line_is_lost :
  exists df,
    fst (extract_active_requirements_table "requirements.pdf"
           (Pdf [Some (join_lines
                         ["Active Requirements";
                          "REQ-100 v1 Engine shall report speed";
                          "REQ-101 v1";
                          "REQ-102 v1 Brake system shall fail safe"])]))
    = Some df /\
    rows df = [["REQ-100 v1"; "Engine shall report speed"];
               ["REQ-102 v1"; "Brake system shall fail safe"]] /\
    existsb (existsb (occurs_in "REQ-101 v1")) (rows df) = false.
Proof. eexists. split; [reflexivity |]. split; reflexivity. Qed.

(** C2, as the code has it.  A document in which no row was committed
    and a file that cannot be opened or read give the same value,
    [None]; the log tells them apart, a warning in the first case and an
    error in the second. *)
Theorem empty_and_missing_differ_in_log_only path pages s :
  scan_document pages = Continue s -> data s = [] ->
  extract_active_requirements_table path (Pdf pages)
  = (None, (log s ++ [(WARNING, MsgNoTable)])%list) /\
  extract_active_requirements_table path Missing
  = (None, [(ERROR, MsgFileNotFound path)]) /\
  extract_active_requirements_table path Unreadable
  = (None, [(ERROR, MsgErrorOccurred OtherError)]).
Proof.
  intros Hs Hd. unfold extract_active_requirements_table.
  rewrite Hs, Hd. repeat split.
Qed.

Lemma empty_and_missing_differ_in_log_only_witness :
  scan_document [Some "Introduction"; None]
  = Continue (mkScan false [] []
                [(INFO, MsgProcessing 2); (WARNING, MsgPageEmpty 2)]) /\
  data (mkScan false [] []
          [(INFO, MsgProcessing 2); (WARNING, MsgPageEmpty 2)]) = [] /\
  extract_active_requirements_table "requirements.pdf"
    (Pdf [Some "Introduction"; None])
  = (None, [(INFO, MsgProcessing 2); (WARNING, MsgPageEmpty 2);
            (WARNING, MsgNoTable)]).
Proof.
  do 2 (split; [reflexivity |]).
  apply (empty_and_missing_differ_in_log_only "requirements.pdf"
           [Some "Introduction"; None]
           (mkScan false [] []
              [(INFO, MsgProcessing 2); (WARNING, MsgPageEmpty 2)]));
    reflexivity.
Defined.

(** C2, as stated: the value returned for a document without table
    would differ from the one returned for a missing file. *)
Lemma empty_returns_what_missing_returns :
  ~ (fst (extract_active_requirements_table "requirements.pdf"
            (Pdf [Some "Introduction"; None]))
     <> fst (extract_active_requirements_table "requirements.pdf" Missing)).
Proof. intros H. apply H. reflexivity. Qed.

(** C3, on the code.  The file is read, the table is there, and the
    function ends in its error handler: the title of the row is on the
    line after its identifier, the row in progress has a single field,
    and line 76 assigns to index 1 of it. *)
Theorem readable_document_ends_in_error :
  extract_active_requirements_table "requirements.pdf"
    (Pdf [Some (join_lines ["Active Requirements";
                            "REQ-100 v1 Engine shall report speed";
                            "REQ-101 v1";
                            "Brake system shall fail safe"])])
  = (None,
     [(INFO, MsgProcessing 1); (INFO, MsgFoundTable 1);
      (DEBUG, MsgNotFullMatch 1 "REQ-101 v1");
      (ERROR, MsgErrorOccurred IndexError)]).
Proof. reflexivity. Qed.


(** * Further properties of the code *)

(** ** What the strict pattern accepts *)

Lemma re_row_sound (l : string) gs :
  re_match false re_row l = Some gs ->
  exists id ws1 n ws2 t rest,
    l = row_line id ws1 n ws2 (t ++ rest) /\
    run_of is_id_char id = true /\ run_of is_space ws1 = true /\
    run_of is_digit n = true /\ run_of is_space ws2 = true /\
    gs = [(3, t); (2, n); (1, "REQ-" ++ id)].
Proof.
  unfold re_match, re_row. intros H. unseq_in H.
  rewrite re_run_seq, re_run_bol, re_run_seq, re_run_grp, re_run_seq in H.
  apply re_run_lit_sound in H as (pv1 & r1 & E1 & H).
  apply re_run_rep_sound in H as (id & r2 & E2 & Hid & Lid & H).
  subst l r1. rewrite take_app2 in H.
  rewrite re_run_seq in H.
  apply re_run_rep_sound in H as (ws1 & r3 & E3 & Hws1 & Lws1 & H).
  rewrite re_run_seq in H.
  apply re_run_lit_sound in H as (pv2 & r4 & E4 & H).
  rewrite re_run_seq, re_run_grp in H.
  apply re_run_rep_sound in H as (n & r5 & E5 & Hn & Ln & H).
  subst r4. rewrite take_app in H.
  rewrite re_run_seq in H.
  apply re_run_rep_sound in H as (ws2 & r6 & E6 & Hws2 & Lws2 & H).
  rewrite re_run_seq, re_run_grp in H.
  apply re_run_rep_sound in H as (t & rest & E7 & Ht & Lt & H).
  subst r6. rewrite take_app in H.
  rewrite re_run_seq, re_run_opt in H.
  assert (Hgs : gs = [(3, t); (2, n); (1, "REQ-" ++ id)]).
  { match type of H with
    | or_else ?a ?b = _ => destruct a as [g|] eqn:Ea; unfold or_else in H
    end.
    - apply annotation_sound in Ea as (? & ? & ? & ? & r & pv & _ & _ & _ & _ & _ & Hk).
      rewrite re_run_eol in Hk. destruct (at_end r); [| discriminate].
      unfold accept in Hk. congruence.
    - rewrite re_run_eol in H. destruct (at_end rest); [| discriminate].
      unfold accept in H. congruence. }
  exists id, ws1, n, ws2, t, rest. subst. unfold row_line.
  repeat split; auto using run_of_intro.
Qed.

Lemma parse_row_sound (l u name : string) :
  parse_row l = Some (u, name) ->
  exists id ws1 n ws2 t rest,
    l = row_line id ws1 n ws2 (t ++ rest) /\
    run_of is_id_char id = true /\ run_of is_space ws1 = true /\
    run_of is_digit n = true /\ run_of is_space ws2 = true /\
    u = "REQ-" ++ id ++ " v" ++ n /\ name = strip t.
Proof.
  unfold parse_row. destruct (re_match false re_row l) as [gs|] eqn:E;
    [| discriminate].
  apply re_row_sound in E
    as (id & ws1 & n & ws2 & t & rest & El & Hid & Hws1 & Hn & Hws2 & Hgs).
  subst gs. cbn [group Nat.eqb]. intros H. inversion H.
  exists id, ws1, n, ws2, t, rest. repeat split; auto.
  change (strip ("REQ-" ++ id ++ " v" ++ n) = "REQ-" ++ id ++ " v" ++ n).
  apply strip_trimmed.
  unfold is_trimmed. apply andb_true_iff. split; [reflexivity |].
  do 3 apply ends_with_text_app.
  apply (ends_with_text_run is_digit); [apply digit_not_space | exact Hn].
Qed.

(** X1.  The row-start test of line 58 hides no line from the strict
    pattern of line 66, and no row-start line ends the region: a line
    the strict pattern accepts matches the row-start pattern, and a
    line that matches the row-start pattern, accepted by the strict
    pattern or not, is not a boundary line. *)
Theorem strict_pattern_within_row_start (l : string) :
  (forall u name, parse_row l = Some (u, name) -> is_row_start l = true) /\
  (is_row_start l = true -> is_boundary l = false).
Proof.
  split.
  - intros u name H. apply parse_row_sound in H
      as (id & ws1 & n & ws2 & t & rest & El & Hid & Hws1 & Hn & Hws2 & _).
    subst l. now apply row_line_is_row_start.
  - apply row_start_not_boundary.
Qed.

Lemma strict_pattern_within_row_start_witness :
  parse_row "REQ-40-B v2 Wipers shall stop (rev) 3"
  = Some ("REQ-40-B v2", "Wipers shall stop") /\
  is_row_start "REQ-40-B v2 Wipers shall stop (rev) 3" = true /\
  parse_row "REQ-41 v1" = None /\
  is_row_start "REQ-41 v1" = true /\
  is_boundary "REQ-41 v1" = false.
Proof.
  split; [reflexivity |]. split.
  - apply (proj1 (strict_pattern_within_row_start
                    "REQ-40-B v2 Wipers shall stop (rev) 3")
             "REQ-40-B v2" "Wipers shall stop").
    reflexivity.
  - do 2 (split; [reflexivity |]).
    apply (proj2 (strict_pattern_within_row_start "REQ-41 v1")).
    reflexivity.
Defined.


(** ** The shape of the table *)

Lemma parse_row_record l u name :
  parse_row l = Some (u, name) -> is_record [u; name].
Proof.
  intros H. exists u, name. split; [reflexivity |]. split.
  - apply parse_row_sound in H
      as (id & ws1 & n & ws2 & t & rest & _ & Hid & _ & Hn & _ & Hu & _).
    now exists id, n.
  - eapply parse_row_stripped; eauto.
Qed.

Lemma record_firstn r : is_record r -> firstn 2 r = r.
Proof. intros (u & nm & -> & _). reflexivity. Qed.

Lemma save_partial_row_well_formed s :
  well_formed_scan s ->
  current_row (save_partial_row s) = [] /\
  Forall is_record (data (save_partial_row s)) /\
  capturing (save_partial_row s) = capturing s.
Proof.
  intros Hwf. split; [apply save_partial_row_empty |]. revert Hwf.
  destruct s as [c r d lg].
  unfold well_formed_scan, save_partial_row, append_if_complete. simpl.
  intros [Hrow Hdata].
  destruct Hrow as [E | [[x E] | Hrec]].
  - subst r. simpl. now split.
  - subst r. simpl. now split.
  - pose proof Hrec as (u & nm & E & _). subst r. simpl. split; [| reflexivity].
    apply Forall_app. split; [exact Hdata |].
    constructor; [exact Hrec | constructor].
Qed.

Lemma process_line_well_formed pn s l s' :
  well_formed_scan s ->
  process_line pn s l = Continue s' \/ process_line pn s l = Break s' ->
  well_formed_scan s'.
Proof.
  intros Hwf H. pose proof Hwf as [Hrow Hdata]. unfold process_line in H.
  destruct (is_empty (strip l)).
  { destruct H as [H | H]; inversion H; now subst. }
  destruct (negb (capturing s) && is_marker (strip l)).
  { destruct H as [H | H]; inversion H. now split. }
  destruct (capturing s); [| destruct H as [H | H]; inversion H; now subst].
  destruct (is_boundary (strip l)).
  { destruct H as [H | H]; inversion H. now split. }
  destruct (is_row_start (strip l)).
  - destruct (save_partial_row_well_formed s Hwf) as (Hr1 & Hd1 & _).
    destruct (parse_row (strip l)) as [[u nm]|] eqn:Hp;
      destruct H as [H | H]; inversion H; subst s'; split; simpl; auto.
    + right. right. eapply parse_row_record; eauto.
    + rewrite Hr1. right. left. now eexists.
  - destruct Hrow as [E | [[x E] | (u & nm & E & Hu & Hnm)]]; rewrite E in H;
      simpl in H.
    + destruct H as [H | H]; inversion H; now subst.
    + destruct H as [H | H]; discriminate H.
    + destruct H as [H | H]; inversion H. split; [| exact Hdata].
      right. right. exists u. eexists. split; [reflexivity |].
      split; [exact Hu | apply strip_is_stripped].
Qed.

Lemma process_lines_well_formed pn ls :
  forall s s',
    well_formed_scan s ->
    process_lines pn s ls = Continue s' \/ process_lines pn s ls = Break s' ->
    well_formed_scan s'.
Proof.
  induction ls as [|l ls IH]; intros s s' Hwf H; simpl in H.
  - destruct H as [H | H]; inversion H; now subst.
  - destruct (process_line pn s l) as [s1|s1|e lg] eqn:E.
    + apply (IH s1); [| exact H].
      eapply process_line_well_formed; eauto.
    + destruct H as [H | H]; inversion H; subst.
      eapply process_line_well_formed; eauto.
    + destruct H; discriminate.
Qed.

Lemma flush_page_well_formed s :
  well_formed_scan s -> well_formed_scan (flush_page s).
Proof.
  destruct s as [c r d lg]. unfold well_formed_scan, flush_page. simpl.
  intros [Hrow Hdata].
  destruct c; simpl; [| now split].
  destruct Hrow as [E | [[x E] | Hrec]].
  - subst r. now split; [left |].
  - subst r. simpl. split; [right; left; now exists x | exact Hdata].
  - pose proof Hrec as (u & nm & E & _). subst r. simpl. split; [now left |].
    apply Forall_app. split; [exact Hdata |].
    constructor; [exact Hrec | constructor].
Qed.

Lemma process_page_well_formed pn s p s' :
  well_formed_scan s -> process_page pn s p = Continue s' ->
  well_formed_scan s'.
Proof.
  intros Hwf H. destruct p as [[|c t]|].
  - inversion H. exact Hwf.
  - rewrite process_page_text in H by discriminate.
    destruct (process_lines pn s (split_lines (String c t))) as [s1|s1|e lg] eqn:E;
      inversion H; apply flush_page_well_formed;
      eapply process_lines_well_formed; eauto.
  - inversion H. exact Hwf.
Qed.

Lemma process_pages_well_formed ps :
  forall pn s s',
    well_formed_scan s -> process_pages pn s ps = Continue s' ->
    well_formed_scan s'.
Proof.
  induction ps as [|p ps IH]; intros pn s s' Hwf H; simpl in H.
  - inversion H. now subst.
  - destruct (process_page pn s p) as [s1|s1|e lg] eqn:E; try discriminate.
    apply (IH (S pn) s1); [| exact H].
    eapply process_page_well_formed; eauto.
Qed.

Lemma finalize_well_formed s :
  well_formed_scan s -> Forall is_record (data (finalize s)).
Proof.
  destruct s as [c r d lg]. unfold well_formed_scan, finalize. simpl.
  intros [Hrow Hdata].
  destruct Hrow as [E | [[x E] | Hrec]].
  - now subst r.
  - now subst r.
  - pose proof Hrec as (u & nm & E & _). subst r. simpl.
    apply Forall_app. split; [exact Hdata |].
    constructor; [exact Hrec | constructor].
Qed.

Lemma process_pages_no_break ps :
  forall pn s s', process_pages pn s ps <> Break s'.
Proof.
  induction ps as [|p ps IH]; intros pn s s'; simpl; [discriminate |].
  destruct (process_page pn s p) as [s1|s1|e lg] eqn:E.
  - apply IH.
  - exfalso. destruct p as [[|c t]|]; [discriminate | | discriminate].
    rewrite process_page_text in E by discriminate.
    destruct (process_lines pn s (split_lines (String c t))); discriminate.
  - discriminate.
Qed.

Lemma extract_table_records path file df :
  fst (extract_active_requirements_table path file) = Some df ->
  columns df = ["Unique ID"; "Name"] /\ rows df <> [] /\
  Forall is_record (rows df).
Proof.
  unfold extract_active_requirements_table. destruct file as [| |pages].
  - discriminate.
  - discriminate.
  - unfold scan_document.
    destruct (process_pages 1 (initial pages) pages) as [s|s|e lg] eqn:E.
    + assert (Hwf : Forall is_record (data (finalize s))).
      { apply finalize_well_formed.
        apply (process_pages_well_formed pages 1 (initial pages)); [| exact E].
        split; [now left | constructor]. }
      destruct (data (finalize s)) as [|r d] eqn:Ed; simpl; [discriminate |].
      intros H. inversion H. simpl. repeat split; [discriminate | exact Hwf].
    + exfalso. eapply process_pages_no_break; eauto.
    + rewrite handle_returns_none. discriminate.
Qed.

(** X2.  Whatever the file, a table returned by the extractor has the
    two columns [Unique ID] and [Name] and at least one row; each row
    has exactly two fields, the first of the form [REQ-<id> v<n>] (word
    characters and hyphens, then digits), the second without whitespace
    at its ends. *)
Theorem returned_table_shape path file df :
  fst (extract_active_requirements_table path file) = Some df ->
  columns df = ["Unique ID"; "Name"] /\ rows df <> [] /\
  Forall is_record (rows df).
Proof. apply extract_table_records. Qed.

Lemma returned_table_shape_witness :
  fst (extract_active_requirements_table "requirements.pdf"
         (Pdf [Some example_page]))
  = Some (mkDataFrame ["Unique ID"; "Name"]
            [["REQ-100 v1";
              "Engine shall report speed to the dashboard module (v2) 14"];
             ["REQ-101 v1"; "Brake system shall fail safe"]]) /\
  Forall is_record
    [["REQ-100 v1";
      "Engine shall report speed to the dashboard module (v2) 14"];
     ["REQ-101 v1"; "Brake system shall fail safe"]].
Proof.
  split; [reflexivity |].
  apply (returned_table_shape "requirements.pdf" (Pdf [Some example_page])
           (mkDataFrame ["Unique ID"; "Name"]
              [["REQ-100 v1";
                "Engine shall report speed to the dashboard module (v2) 14"];
               ["REQ-101 v1"; "Brake system shall fail safe"]])).
  reflexivity.
Defined.

(** X3.  A document none of whose lines has the region marker gives no
    table: the value is [None] and the log ends with the warning that
    no table was found, whatever row-start lines the pages hold. *)
Theorem no_marker_no_table path pages :
  forallb quiet_page pages = true ->
  exists lg,
    extract_active_requirements_table path (Pdf pages)
    = (None, (lg ++ [(WARNING, MsgNoTable)])%list).
Proof.
  intros Hq. unfold extract_active_requirements_table, scan_document.
  destruct (quiet_pages_core pages 1 (initial pages) eq_refl Hq)
    as (s & Hs & Hcore).
  rewrite Hs.
  assert (Hd : data (finalize s) = []).
  { rewrite (finalize_core s (initial pages) Hcore). reflexivity. }
  rewrite Hd. simpl. eexists. reflexivity.
Qed.

Lemma no_marker_no_table_witness :
  forallb quiet_page
    [Some (join_lines ["Requirements overview"; "REQ-1 v1 Door shall lock"]);
     None] = true /\
  exists lg,
    extract_active_requirements_table "requirements.pdf"
      (Pdf [Some (join_lines ["Requirements overview";
                              "REQ-1 v1 Door shall lock"]); None])
    = (None, (lg ++ [(WARNING, MsgNoTable)])%list).
Proof.
  split; [reflexivity |].
  apply (no_marker_no_table "requirements.pdf"
           [Some (join_lines ["Requirements overview";
                              "REQ-1 v1 Door shall lock"]); None]).
  reflexivity.
Defined.


(** ** The output only grows *)

Lemma save_partial_row_grows s :
  exists more, data (save_partial_row s) = (data s ++ more)%list.
Proof.
  unfold save_partial_row, append_if_complete.
  destruct (is_nil (current_row s)); [exists []; now rewrite app_nil_r |].
  destruct (Nat.leb 2 (length (current_row s))); simpl.
  - eexists. reflexivity.
  - exists []. now rewrite app_nil_r.
Qed.

Lemma process_line_grows pn s l s' :
  process_line pn s l = Continue s' \/ process_line pn s l = Break s' ->
  exists more, data s' = (data s ++ more)%list.
Proof.
  intros H. unfold process_line in H.
  destruct (is_empty (strip l)).
  { destruct H as [H | H]; inversion H; same_data. }
  destruct (negb (capturing s) && is_marker (strip l)).
  { destruct H as [H | H]; inversion H; same_data. }
  destruct (capturing s); [| destruct H as [H | H]; inversion H; same_data].
  destruct (is_boundary (strip l)).
  { destruct H as [H | H]; inversion H; same_data. }
  destruct (is_row_start (strip l)).
  - destruct (parse_row (strip l)) as [[u nm]|];
      destruct H as [H | H]; inversion H; simpl; apply save_partial_row_grows.
  - destruct (negb (is_nil (current_row s))).
    + destruct (set_item (current_row s) 1 _);
        destruct H as [H | H]; inversion H; same_data.
    + destruct H as [H | H]; inversion H; same_data.
Qed.

Lemma process_lines_grows pn ls :
  forall s s',
    process_lines pn s ls = Continue s' \/ process_lines pn s ls = Break s' ->
    exists more, data s' = (data s ++ more)%list.
Proof.
  induction ls as [|l ls IH]; intros s s' H; simpl in H.
  - exists []. rewrite app_nil_r. destruct H as [H | H]; inversion H. reflexivity.
  - destruct (process_line pn s l) as [s1|s1|e lg] eqn:E.
    + destruct (process_line_grows pn s l s1 (or_introl E)) as [m1 E1].
      destruct (IH s1 s' H) as [m2 E2].
      exists (m1 ++ m2)%list. now rewrite E2, E1, app_assoc.
    + destruct H as [H | H]; inversion H; subst.
      apply (process_line_grows pn s l s'). now right.
    + destruct H; discriminate.
Qed.

Lemma flush_page_grows s :
  exists more, data (flush_page s) = (data s ++ more)%list.
Proof.
  unfold flush_page.
  destruct (capturing s && negb (is_nil (current_row s))
            && Nat.leb 2 (length (current_row s))); simpl.
  - eexists. reflexivity.
  - exists []. now rewrite app_nil_r.
Qed.

Lemma process_page_grows pn s p s' :
  process_page pn s p = Continue s' ->
  exists more, data s' = (data s ++ more)%list.
Proof.
  intros H. destruct p as [[|c t]|].
  - inversion H. exists []. simpl. now rewrite app_nil_r.
  - rewrite process_page_text in H by discriminate.
    destruct (process_lines pn s (split_lines (String c t))) as [s1|s1|e lg] eqn:E;
      inversion H.
    + destruct (process_lines_grows pn _ s s1 (or_introl E)) as [m1 E1].
      destruct (flush_page_grows s1) as [m2 E2].
      exists (m1 ++ m2)%list. now rewrite E2, E1, app_assoc.
    + destruct (process_lines_grows pn _ s s1 (or_intror E)) as [m1 E1].
      destruct (flush_page_grows s1) as [m2 E2].
      exists (m1 ++ m2)%list. now rewrite E2, E1, app_assoc.
  - inversion H. exists []. simpl. now rewrite app_nil_r.
Qed.

Lemma finalize_grows s :
  exists more, data (finalize s) = (data s ++ more)%list.
Proof.
  unfold finalize.
  destruct (negb (is_nil (current_row s)) && Nat.leb 2 (length (current_row s)));
    simpl.
  - eexists. reflexivity.
  - exists []. now rewrite app_nil_r.
Qed.

(** X4.  The scan never removes, changes or reorders a record it has
    committed: over any pages, the records of the state reached, and
    those left after the final flush, are the records held before
    followed by new ones. *)
Theorem committed_records_stay ps :
  forall pn s s',
    process_pages pn s ps = Continue s' ->
    exists more more',
      data s' = (data s ++ more)%list /\
      data (finalize s') = (data s ++ more ++ more')%list.
Proof.
  induction ps as [|p ps IH]; intros pn s s' H; simpl in H.
  - inversion H. subst s'. destruct (finalize_grows s) as [m E].
    exists [], m. simpl. now rewrite app_nil_r.
  - destruct (process_page pn s p) as [s1|s1|e lg] eqn:E; try discriminate.
    destruct (process_page_grows pn s p s1 E) as [m1 E1].
    destruct (IH (S pn) s1 s' H) as (m2 & m3 & E2 & E3).
    exists (m1 ++ m2)%list, m3. rewrite E2, E3, E1.
    now rewrite <- !app_assoc.
Qed.

Lemma committed_records_stay_witness :
  process_pages 2 (mkScan true [] [["REQ-1 v1"; "Door shall lock"]] [])
    [Some "REQ-1 v1 Door shall open"]
  = Continue (mkScan true []
                [["REQ-1 v1"; "Door shall lock"];
                 ["REQ-1 v1"; "Door shall open"]] []) /\
  exists more more',
    data (mkScan true []
            [["REQ-1 v1"; "Door shall lock"];
             ["REQ-1 v1"; "Door shall open"]] [])
    = (data (mkScan true [] [["REQ-1 v1"; "Door shall lock"]] []) ++ more)%list /\
    data (finalize (mkScan true []
                      [["REQ-1 v1"; "Door shall lock"];
                       ["REQ-1 v1"; "Door shall open"]] []))
    = (data (mkScan true [] [["REQ-1 v1"; "Door shall lock"]] [])
       ++ more ++ more')%list.
Proof.
  split; [reflexivity |].
  apply (committed_records_stay [Some "REQ-1 v1 Door shall open"] 2
           (mkScan true [] [["REQ-1 v1"; "Door shall lock"]] [])).
  reflexivity.
Defined.

(** ** After a boundary line *)

(** X5.  Once a boundary line is read while capturing, the lines that
    follow it on the page are not read at all: two pages with the same
    lines up to and including the boundary line leave the scan in the
    same state, log included, whatever comes after (a marker, row-start
    lines). *)
Theorem rest_of_page_after_boundary_ignored pn s0 t t' pre s b rest rest' :
  split_lines t = (pre ++ b :: rest)%list ->
  split_lines t' = (pre ++ b :: rest')%list ->
  process_lines pn s0 pre = Continue s ->
  capturing s = true -> boundary_line b = true ->
  process_page pn s0 (Some t) = process_page pn s0 (Some t') /\
  process_page pn s0 (Some t)
  = Continue (logging INFO (MsgEndOfTable pn) (set_capturing false s)).
Proof.
  intros Ht Ht' Hpre Hc Hb.
  assert (Hgen : forall x r, split_lines x = (pre ++ b :: r)%list ->
            process_page pn s0 (Some x)
            = Continue (logging INFO (MsgEndOfTable pn) (set_capturing false s))).
  { intros x r Hx.
    assert (Hne : x <> "").
    { intros ->. simpl in Hx. destruct pre as [|y [|z pre']]; try discriminate.
      inversion Hx. subst b. discriminate Hb. }
    rewrite process_page_text by exact Hne. rewrite Hx.
    rewrite (process_lines_app pn s0 s pre _ Hpre). cbn [process_lines].
    rewrite (process_line_boundary pn s b Hc Hb).
    now rewrite flush_page_idle. }
  rewrite (Hgen t rest Ht), (Hgen t' rest' Ht'). now split.
Qed.

Lemma rest_of_page_after_boundary_ignored_witness :
  split_lines (join_lines ["Active Requirements"; "2.1 Scope";
                           "Active Requirements"; "REQ-9 v1 Horn shall sound"])
  = (["Active Requirements"] ++
     "2.1 Scope" :: ["Active Requirements"; "REQ-9 v1 Horn shall sound"])%list /\
  split_lines (join_lines ["Active Requirements"; "2.1 Scope"; "end"])
  = (["Active Requirements"] ++ "2.1 Scope" :: ["end"])%list /\
  process_lines 1 (mkScan false [] [] []) ["Active Requirements"]
  = Continue (mkScan true [] [] [(INFO, MsgFoundTable 1)]) /\
  capturing (mkScan true [] [] [(INFO, MsgFoundTable 1)]) = true /\
  boundary_line "2.1 Scope" = true /\
  process_page 1 (mkScan false [] [] [])
    (Some (join_lines ["Active Requirements"; "2.1 Scope";
                       "Active Requirements"; "REQ-9 v1 Horn shall sound"]))
  = process_page 1 (mkScan false [] [] [])
      (Some (join_lines ["Active Requirements"; "2.1 Scope"; "end"])).
Proof.
  do 5 (split; [reflexivity |]).
  apply (rest_of_page_after_boundary_ignored 1 (mkScan false [] [] [])
           (join_lines ["Active Requirements"; "2.1 Scope";
                        "Active Requirements"; "REQ-9 v1 Horn shall sound"])
           (join_lines ["Active Requirements"; "2.1 Scope"; "end"])
           ["Active Requirements"]
           (mkScan true [] [] [(INFO, MsgFoundTable 1)])
           "2.1 Scope"
           ["Active Requirements"; "REQ-9 v1 Horn shall sound"] ["end"]);
    reflexivity.
Defined.

(** ** Blank lines *)

(** X6.  A line that is empty or made of whitespace only changes
    nothing wherever it stands among the lines of a page: not the
    state, not the log, not how the loop ends. *)
Theorem blank_line_ignored pn pre blank post :
  is_empty (strip blank) = true ->
  forall s,
    process_lines pn s (pre ++ blank :: post)%list
    = process_lines pn s (pre ++ post)%list.
Proof.
  intros Hb. induction pre as [|l pre IH]; intros s; simpl.
  - now rewrite process_line_blank.
  - destruct (process_line pn s l); auto.
Qed.

Lemma blank_line_ignored_witness :
  is_empty (strip "   ") = true /\
  process_lines 1 (mkScan true [] [] [])
    (["REQ-1 v1 Door shall lock"] ++ "   " :: ["when parked"])%list
  = process_lines 1 (mkScan true [] [] [])
      (["REQ-1 v1 Door shall lock"] ++ ["when parked"])%list.
Proof.
  split; [reflexivity |].
  apply (blank_line_ignored 1 ["REQ-1 v1 Door shall lock"] "   "
           ["when parked"] eq_refl).
Defined.


(** ** The row of a single field *)

Lemma process_pages_app before :
  forall pn s s0 rest,
    process_pages pn s before = Continue s0 ->
    process_pages pn s (before ++ rest)%list
    = process_pages (pn + length before) s0 rest.
Proof.
  induction before as [|p before IH]; intros pn s s0 rest H; simpl in *.
  - inversion H. now rewrite Nat.add_0_r.
  - destruct (process_page pn s p); try discriminate.
    rewrite (IH (S pn) _ s0 rest H). f_equal. lia.
Qed.

(** X7.  The slip of line 76 in general.  In any document, once a line
    read while capturing matches the row-start pattern without the
    strict one and the next line is a continuation line, the whole
    extraction ends in the error handler: the value is [None], whatever
    was committed before and whatever follows, and the log ends with
    the debug record of the refused line and the error record of the
    IndexError. *)
Theorem single_field_row_then_continuation path pages before t after
        pre raw c rest s0 s :
  pages = (before ++ Some t :: after)%list ->
  process_pages 1 (initial pages) before = Continue s0 ->
  split_lines t = (pre ++ raw :: c :: rest)%list ->
  process_lines (S (length before)) s0 pre = Continue s ->
  capturing s = true ->
  mismatch_line raw = true -> continuation_line c = true ->
  extract_active_requirements_table path (Pdf pages)
  = (None,
     (log s ++ [(DEBUG, MsgNotFullMatch (S (length before)) (strip raw));
                (ERROR, MsgErrorOccurred IndexError)])%list).
Proof.
  intros Hpages Hbefore Hsplit Hpre Hc Hm Hcont.
  unfold mismatch_line in Hm. apply andb_true_iff in Hm as [Hr Hp].
  apply negb_true_iff in Hp.
  assert (Hnone : parse_row (strip raw) = None)
    by (destruct (parse_row (strip raw)); [discriminate | reflexivity]).
  assert (Ht : t <> "").
  { intros ->. simpl in Hsplit. destruct pre as [|y [|z pre']]; discriminate. }
  unfold extract_active_requirements_table, scan_document.
  rewrite Hpages at 2.
  rewrite (process_pages_app before 1 (initial pages) s0 _ Hbefore).
  cbn [process_pages Nat.add]. rewrite process_page_text by exact Ht.
  rewrite Hsplit, (process_lines_app _ s0 s pre _ Hpre). cbn [process_lines].
  rewrite (process_line_mismatch _ s raw Hc Hr Hnone).
  erewrite process_line_short_row; [| | exact Hcont | reflexivity].
  - simpl. rewrite <- app_assoc. simpl. do 2 f_equal.
    unfold save_partial_row, append_if_complete.
    destruct (is_nil (current_row s)); [reflexivity |].
    now destruct (Nat.leb 2 (length (current_row s))).
  - simpl. unfold save_partial_row, append_if_complete.
    destruct (is_nil (current_row s)); [exact Hc |].
    now destruct (Nat.leb 2 (length (current_row s))).
Qed.

Lemma single_field_row_then_continuation_witness :
  [Some (join_lines ["Active Requirements"; "REQ-1 v1 Door shall lock"]);
   Some (join_lines ["REQ-2 v3"; "Horn shall sound"]); Some "Appendix"]
  = ([Some (join_lines ["Active Requirements"; "REQ-1 v1 Door shall lock"])]
     ++ Some (join_lines ["REQ-2 v3"; "Horn shall sound"])
     :: [Some "Appendix"])%list /\
  process_pages 1
    (initial
       [Some (join_lines ["Active Requirements"; "REQ-1 v1 Door shall lock"]);
        Some (join_lines ["REQ-2 v3"; "Horn shall sound"]); Some "Appendix"])
    [Some (join_lines ["Active Requirements"; "REQ-1 v1 Door shall lock"])]
  = Continue (mkScan true [] [["REQ-1 v1"; "Door shall lock"]]
                [(INFO, MsgProcessing 3); (INFO, MsgFoundTable 1)]) /\
  split_lines (join_lines ["REQ-2 v3"; "Horn shall sound"])
  = ([] ++ "REQ-2 v3" :: "Horn shall sound" :: [])%list /\
  process_lines 2
    (mkScan true [] [["REQ-1 v1"; "Door shall lock"]]
       [(INFO, MsgProcessing 3); (INFO, MsgFoundTable 1)]) []
  = Continue (mkScan true [] [["REQ-1 v1"; "Door shall lock"]]
                [(INFO, MsgProcessing 3); (INFO, MsgFoundTable 1)]) /\
  capturing (mkScan true [] [["REQ-1 v1"; "Door shall lock"]]
               [(INFO, MsgProcessing 3); (INFO, MsgFoundTable 1)]) = true /\
  mismatch_line "REQ-2 v3" = true /\
  continuation_line "Horn shall sound" = true /\
  extract_active_requirements_table "requirements.pdf"
    (Pdf [Some (join_lines ["Active Requirements"; "REQ-1 v1 Door shall lock"]);
          Some (join_lines ["REQ-2 v3"; "Horn shall sound"]); Some "Appendix"])
  = (None,
     [(INFO, MsgProcessing 3); (INFO, MsgFoundTable 1);
      (DEBUG, MsgNotFullMatch 2 "REQ-2 v3");
      (ERROR, MsgErrorOccurred IndexError)]).
Proof.
  do 7 (split; [reflexivity |]).
  apply (single_field_row_then_continuation "requirements.pdf"
           [Some (join_lines ["Active Requirements"; "REQ-1 v1 Door shall lock"]);
            Some (join_lines ["REQ-2 v3"; "Horn shall sound"]); Some "Appendix"]
           [Some (join_lines ["Active Requirements"; "REQ-1 v1 Door shall lock"])]
           (join_lines ["REQ-2 v3"; "Horn shall sound"])
           [Some "Appendix"] [] "REQ-2 v3" "Horn shall sound" []
           (mkScan true [] [["REQ-1 v1"; "Door shall lock"]]
              [(INFO, MsgProcessing 3); (INFO, MsgFoundTable 1)])
           (mkScan true [] [["REQ-1 v1"; "Door shall lock"]]
              [(INFO, MsgProcessing 3); (INFO, MsgFoundTable 1)]));
    reflexivity.
Defined.

(** ** No record without a row-start line *)

Lemma set_item_length l i v r :
  set_item l i v = Some r -> length r = length l.
Proof.
  revert i r. induction l as [|x l IH]; intros i r H; simpl in H;
    [discriminate |].
  destruct i.
  - inversion H. reflexivity.
  - destruct (set_item l i v) eqn:E; [| discriminate].
    inversion H. simpl. now rewrite (IH _ _ E).
Qed.

Lemma save_partial_row_count s :
  length (data (save_partial_row s)) = length (data s) + pending_count s /\
  pending_count (save_partial_row s) = 0.
Proof.
  destruct s as [c r d lg].
  unfold save_partial_row, append_if_complete, pending_count. simpl.
  destruct r as [|x [|y r]]; simpl; rewrite ?length_app; simpl; lia.
Qed.

Lemma process_line_count pn s l s' :
  process_line pn s l = Continue s' \/ process_line pn s l = Break s' ->
  length (data s') + pending_count s'
  <= length (data s) + pending_count s
     + (if parsed_line l then 1 else 0).
Proof.
  intros H. unfold process_line in H. unfold parsed_line.
  destruct (is_empty (strip l)).
  { destruct H as [H | H]; inversion H; subst; lia. }
  destruct (negb (capturing s) && is_marker (strip l)).
  { destruct H as [H | H]; inversion H; subst; unfold pending_count; simpl; lia. }
  destruct (capturing s); [| destruct H as [H | H]; inversion H; subst; lia].
  destruct (is_boundary (strip l)).
  { destruct H as [H | H]; inversion H; subst; unfold pending_count; simpl; lia. }
  destruct (is_row_start (strip l)).
  - destruct (save_partial_row_count s) as [E1 E2].
    remember (pending_count s) as P.
    destruct (parse_row (strip l)) as [[u nm]|];
      destruct H as [H | H]; inversion H; subst s'; simpl;
      unfold pending_count; simpl; rewrite ?E1.
    + lia.
    + rewrite save_partial_row_empty. simpl. lia.
  - simpl. destruct (negb (is_nil (current_row s))).
    + destruct (set_item (current_row s) 1 _) as [r|] eqn:E;
        destruct H as [H | H]; inversion H; subst s'.
      unfold pending_count. simpl. rewrite (set_item_length _ _ _ _ E). lia.
    + destruct H as [H | H]; inversion H; subst; lia.
Qed.

Lemma process_lines_count pn ls :
  forall s s',
    process_lines pn s ls = Continue s' \/ process_lines pn s ls = Break s' ->
    length (data s') + pending_count s'
    <= length (data s) + pending_count s + length (filter parsed_line ls).
Proof.
  induction ls as [|l ls IH]; intros s s' H; simpl in H.
  - destruct H as [H | H]; inversion H; subst; simpl; lia.
  - destruct (process_line pn s l) as [s1|s1|e lg] eqn:E.
    + pose proof (process_line_count pn s l s1 (or_introl E)) as H1.
      pose proof (IH s1 s' H) as H2. simpl.
      destruct (parsed_line l); simpl; lia.
    + destruct H as [H | H]; inversion H; subst.
      pose proof (process_line_count pn s l s' (or_intror E)) as H1. simpl.
      destruct (parsed_line l); simpl; lia.
    + destruct H; discriminate.
Qed.

Lemma flush_page_count s :
  length (data (flush_page s)) + pending_count (flush_page s)
  <= length (data s) + pending_count s.
Proof.
  destruct s as [c r d lg]. unfold flush_page, pending_count. simpl.
  destruct c; simpl; [| lia].
  destruct r as [|x [|y r]]; simpl; rewrite ?length_app; simpl; lia.
Qed.

Lemma process_page_count pn s p s' :
  process_page pn s p = Continue s' ->
  length (data s') + pending_count s'
  <= length (data s) + pending_count s
     + length (filter parsed_line (page_lines p)).
Proof.
  intros H. destruct p as [[|c t]|].
  - inversion H. unfold pending_count. simpl. lia.
  - rewrite process_page_text in H by discriminate. cbn [page_lines].
    destruct (process_lines pn s (split_lines (String c t))) as [s1|s1|e lg] eqn:E;
      inversion H.
    + pose proof (process_lines_count pn _ s s1 (or_introl E)).
      pose proof (flush_page_count s1). lia.
    + pose proof (process_lines_count pn _ s s1 (or_intror E)).
      pose proof (flush_page_count s1). lia.
  - inversion H. unfold pending_count. simpl. lia.
Qed.

Lemma process_pages_count ps :
  forall pn s s',
    process_pages pn s ps = Continue s' ->
    length (data s') + pending_count s'
    <= length (data s) + pending_count s + count_parsed_lines ps.
Proof.
  unfold count_parsed_lines.
  induction ps as [|p ps IH]; intros pn s s' H; simpl in H.
  - inversion H. subst. simpl. lia.
  - destruct (process_page pn s p) as [s1|s1|e lg] eqn:E; try discriminate.
    pose proof (process_page_count pn s p s1 E).
    pose proof (IH (S pn) s1 s' H).
    simpl. rewrite filter_app, length_app. lia.
Qed.

Lemma finalize_count s :
  length (data (finalize s)) = length (data s) + pending_count s.
Proof.
  destruct s as [c r d lg]. unfold finalize, pending_count. simpl.
  destruct r as [|x [|y r]]; simpl; rewrite ?length_app; simpl; lia.
Qed.

(** X8.  The table never has more rows than the document has lines
    that match the row-start pattern and the strict pattern: no record
    comes from a continuation line, a page break or the final flush
    alone. *)
Theorem rows_bounded_by_row_start_lines path pages df :
  fst (extract_active_requirements_table path (Pdf pages)) = Some df ->
  length (rows df) <= count_parsed_lines pages.
Proof.
  unfold extract_active_requirements_table, scan_document.
  destruct (process_pages 1 (initial pages) pages) as [s|s|e lg] eqn:E.
  - pose proof (process_pages_count pages 1 (initial pages) s E) as Hc.
    pose proof (finalize_count s) as Hf.
    assert (H0 : pending_count (initial pages) = 0) by reflexivity.
    assert (H1 : length (data (initial pages)) = 0) by reflexivity.
    destruct (negb (is_nil (data (finalize s)))); [| discriminate].
    intros H. inversion H. cbn [rows]. lia.
  - exfalso. eapply process_pages_no_break; eauto.
  - rewrite handle_returns_none. discriminate.
Qed.

Lemma rows_bounded_by_row_start_lines_witness :
  fst (extract_active_requirements_table "requirements.pdf"
         (Pdf [Some example_page]))
  = Some (mkDataFrame ["Unique ID"; "Name"]
            [["REQ-100 v1";
              "Engine shall report speed to the dashboard module (v2) 14"];
             ["REQ-101 v1"; "Brake system shall fail safe"]]) /\
  length [["REQ-100 v1";
           "Engine shall report speed to the dashboard module (v2) 14"];
          ["REQ-101 v1"; "Brake system shall fail safe"]]
  <= count_parsed_lines [Some example_page].
Proof.
  split; [reflexivity |].
  apply (rows_bounded_by_row_start_lines "requirements.pdf"
           [Some example_page]
           (mkDataFrame ["Unique ID"; "Name"]
              [["REQ-100 v1";
                "Engine shall report speed to the dashboard module (v2) 14"];
               ["REQ-101 v1"; "Brake system shall fail safe"]])).
  reflexivity.
Defined.


(** ** The row held at a boundary line *)



















(** ** The requirements of a PDF upload ([main.py]) *)

Lemma rows_to_requirements_records rs :
  forall index,
    Forall is_record rs ->
    rows_to_requirements ["Unique ID"; "Name"] index rs
    = map (fun row => mkRequirement (nth 0 row "") (nth 1 row "")
                        (Some "Active Requirement")) rs.
Proof.
  induction rs as [|r rs IH]; intros index H; [reflexivity |].
  inversion H as [|? ? (u & nm & -> & _) Hrs]; subst.
  cbn [rows_to_requirements map]. rewrite (IH (S index) Hrs). reflexivity.
Qed.

(** X9.  For a PDF upload the requirements are the rows of the table,
    one for one and in order: the id is the Unique ID, the description
    the Name, the category [Active Requirement].  The fallbacks
    [REQ_<index>] and [No description available] of lines 94-95 are
    never used, and a file the extractor returns [None] for gives no
    requirement. *)
Theorem pdf_requirements_are_the_rows path file :
  pdf_requirements (fst (extract_active_requirements_table path file))
  = match fst (extract_active_requirements_table path file) with
    | Some df =>
        map (fun row => mkRequirement (nth 0 row "") (nth 1 row "")
                          (Some "Active Requirement")) (rows df)
    | None => []
    end.
Proof.
  destruct (fst (extract_active_requirements_table path file)) as [df|] eqn:E;
    [| reflexivity].
  destruct (extract_table_records path file df E) as (Hcols & Hrows & Hrec).
  unfold pdf_requirements, df_empty. rewrite Hcols.
  destruct (rows df) as [|r rs] eqn:Er; [congruence |]. simpl negb. cbv iota.
  now apply rows_to_requirements_records.
Qed.

(** ** The extension of an uploaded file *)












(** ** The JSON array cut out of a model response *)

Lemma find_from_absent c s :
  forall i, has_char c s = false -> find_from c s i = (-1)%Z.
Proof.
  induction s as [|x s IH]; intros i H; simpl in *; [reflexivity |].
  apply orb_false_iff in H as [Hx Hs]. rewrite Hx. now apply IH.
Qed.

Lemma find_from_app c pre r :
  forall i,
    has_char c pre = false ->
    find_from c (pre ++ String c r) i = (i + Z.of_nat (String.length pre))%Z.
Proof.
  induction pre as [|x pre IH]; intros i H.
  - simpl. rewrite Ascii.eqb_refl. lia.
  - simpl in H. apply orb_false_iff in H as [Hx Hs].
    cbn [append find_from String.length]. rewrite Hx, (IH _ Hs). lia.
Qed.

Lemma rfind_from_absent c s :
  forall i, has_char c s = false -> rfind_from c s i = (-1)%Z.
Proof.
  induction s as [|x s IH]; intros i H; simpl in *; [reflexivity |].
  apply orb_false_iff in H as [Hx Hs]. now rewrite (IH _ Hs), Hx.
Qed.

Lemma rfind_from_app c a post :
  forall i,
    (0 <= i)%Z -> has_char c post = false ->
    rfind_from c (a ++ String c post) i = (i + Z.of_nat (String.length a))%Z.
Proof.
  induction a as [|x a IH]; intros i Hi H.
  - simpl. rewrite (rfind_from_absent c post _ H), Ascii.eqb_refl. simpl. lia.
  - cbn [append rfind_from String.length].
    rewrite (IH (i + 1)%Z) by (auto; lia).
    destruct (i + 1 + Z.of_nat (String.length a) =? -1)%Z eqn:E; [lia | lia].
Qed.

Lemma rfind_from_app_absent c a b :
  forall i,
    has_char c b = false -> rfind_from c (a ++ b) i = rfind_from c a i.
Proof.
  induction a as [|x a IH]; intros i H.
  - simpl. now apply rfind_from_absent.
  - cbn [append rfind_from]. now rewrite (IH _ H).
Qed.

Lemma rfind_from_bounds c a :
  forall i,
    (0 <= i)%Z ->
    (-1 <= rfind_from c a i < i + Z.of_nat (String.length a))%Z.
Proof.
  induction a as [|x a IH]; intros i Hi.
  - simpl. lia.
  - cbn [rfind_from String.length]. specialize (IH (i + 1)%Z ltac:(lia)).
    destruct (rfind_from c a (i + 1) =? -1)%Z; [destruct (Ascii.eqb x c) |]; lia.
Qed.

Lemma drop_app a b : drop (String.length a) (a ++ b) = b.
Proof. induction a as [|x a IH]; simpl; [now destruct b | exact IH]. Qed.

Lemma take_length_app a b : take (String.length a) (a ++ b) = a.
Proof. induction a as [|x a IH]; simpl; [now destruct b | now rewrite IH]. Qed.

Lemma take_zero s : take 0 s = "".
Proof. now destruct s. Qed.

(** X11.  When the response of the model has an opening bracket and,
    after it, a last closing bracket, what is handed to [json.loads] is
    the text from the first opening bracket to the last closing one,
    both included: the prose before and after the array is dropped. *)
Theorem json_candidate_brackets pre mid post :
  has_char "[" pre = false -> has_char "]" post = false ->
  json_candidate (pre ++ "[" ++ mid ++ "]" ++ post) = "[" ++ mid ++ "]".
Proof.
  intros Hpre Hpost. unfold json_candidate, str_find, str_rfind.
  set (text := pre ++ "[" ++ mid ++ "]" ++ post).
  assert (Hf : find_from "[" text 0 = Z.of_nat (String.length pre)).
  { unfold text. simpl ("[" ++ _). rewrite find_from_app by exact Hpre. lia. }
  assert (Hr : rfind_from "]" text 0
               = Z.of_nat (String.length (pre ++ "[" ++ mid))).
  { unfold text.
    replace (pre ++ "[" ++ mid ++ "]" ++ post)
      with ((pre ++ "[" ++ mid) ++ String "]" post)
      by (now rewrite !str_app_assoc).
    rewrite rfind_from_app by (auto; lia). lia. }
  assert (Hlen : String.length text
                 = String.length pre + (String.length ("[" ++ mid ++ "]")
                                        + String.length post)).
  { unfold text.
    replace (pre ++ "[" ++ mid ++ "]" ++ post)
      with (pre ++ ("[" ++ mid ++ "]") ++ post)
      by (now rewrite !str_app_assoc).
    now rewrite !str_length_app. }
  assert (Hmid : String.length (pre ++ "[" ++ mid) + 1
                 = String.length pre + String.length ("[" ++ mid ++ "]")).
  { rewrite !str_length_app. simpl. lia. }
  rewrite Hf, Hr.
  destruct (Z.of_nat (String.length pre) =? -1)%Z eqn:E; [lia |]. simpl negb.
  cbv iota. unfold py_slice, slice_bound. rewrite Hlen.
  destruct (Z.of_nat (String.length pre) <? 0)%Z eqn:E1; [lia |].
  destruct (Z.of_nat (String.length (pre ++ "[" ++ mid)) + 1 <? 0)%Z eqn:E2;
    [lia |].
  rewrite Z.min_l by lia. rewrite Z.min_l by lia.
  rewrite Nat2Z.id.
  replace (Z.to_nat (Z.of_nat (String.length (pre ++ "[" ++ mid)) + 1
                     - Z.of_nat (String.length pre)))
    with (String.length ("[" ++ mid ++ "]")) by lia.
  unfold text.
  replace (pre ++ "[" ++ mid ++ "]" ++ post)
    with (pre ++ ("[" ++ mid ++ "]") ++ post)
    by (now rewrite !str_app_assoc).
  now rewrite drop_app, take_length_app.
Qed.

Lemma json_candidate_brackets_witness :
  has_char "[" "Here are the test cases: " = false /\
  has_char "]" " Let me know." = false /\
  json_candidate ("Here are the test cases: " ++ "[" ++ "{}, [1]" ++ "]"
                  ++ " Let me know.")
  = "[" ++ "{}, [1]" ++ "]".
Proof.
  do 2 (split; [reflexivity |]).
  apply (json_candidate_brackets "Here are the test cases: " "{}, [1]"
           " Let me know."); reflexivity.
Defined.

(** X12.  The two edges of that cut.  A response without opening
    bracket is handed over whole.  A response with an opening bracket
    and no closing bracket after the first opening one gives the empty
    text, whatever it holds: nothing of the response reaches
    [json.loads]. *)
Theorem json_candidate_edges t pre rest :
  has_char "[" t = false ->
  has_char "[" pre = false -> has_char "]" rest = false ->
  json_candidate t = t /\ json_candidate (pre ++ "[" ++ rest) = "".
Proof.
  intros Ht Hpre Hrest. split.
  - unfold json_candidate, str_find. now rewrite find_from_absent.
  - unfold json_candidate, str_find, str_rfind.
    simpl ("[" ++ rest).
    rewrite find_from_app by exact Hpre.
    rewrite rfind_from_app_absent
      by (simpl; rewrite Hrest; reflexivity).
    pose proof (rfind_from_bounds "]" pre 0 ltac:(lia)) as Hb.
    destruct (0 + Z.of_nat (String.length pre) =? -1)%Z eqn:E; [lia |].
    simpl negb. cbv iota. unfold py_slice, slice_bound.
    rewrite str_length_app. cbn [String.length].
    destruct (0 + Z.of_nat (String.length pre) <? 0)%Z eqn:E1; [lia |].
    destruct (rfind_from "]" pre 0 + 1 <? 0)%Z eqn:E2; [lia |].
    replace (Z.to_nat _) with 0 by lia.
    apply take_zero.
Qed.

Lemma json_candidate_edges_witness :
  has_char "[" "Sorry, no test cases." = false /\
  has_char "[" "done] " = false /\ has_char "]" "{}, {}" = false /\
  json_candidate "Sorry, no test cases." = "Sorry, no test cases." /\
  json_candidate ("done] " ++ "[" ++ "{}, {}") = "".
Proof.
  do 3 (split; [reflexivity |]).
  apply (json_candidate_edges "Sorry, no test cases." "done] " "{}, {}");
    reflexivity.
Defined.


(** ** Test cases grouped by requirement *)

Lemma first_seen_in k l : In k (first_seen l) <-> In k l.
Proof.
  induction l as [|x l IH]; simpl; [tauto |].
  rewrite filter_In, IH. split.
  - intros [H | [H _]]; auto.
  - intros [H | H]; [now left |].
    destruct (String.eqb_spec k x) as [E | E]; [left; congruence |].
    right. split; [exact H | reflexivity].
Qed.

Lemma first_seen_nodup l : NoDup (first_seen l).
Proof.
  induction l as [|x l IH]; simpl; constructor.
  - rewrite filter_In. intros [_ H]. now rewrite String.eqb_refl in H.
  - now apply NoDup_filter.
Qed.

Lemma first_seen_snoc_new k l :
  ~ In k l -> first_seen (l ++ [k]) = (first_seen l ++ [k])%list.
Proof.
  induction l as [|x l IH]; intros H; [reflexivity |].
  cbn [app first_seen]. rewrite IH by (intros Hin; apply H; now right).
  rewrite filter_app. simpl.
  destruct (String.eqb_spec k x) as [E | E]; [| reflexivity].
  exfalso. apply H. left. congruence.
Qed.

Lemma first_seen_snoc_old k l :
  In k l -> first_seen (l ++ [k]) = first_seen l.
Proof.
  induction l as [|x l IH]; intros H; [destruct H |].
  cbn [app first_seen]. f_equal.
  destruct (in_dec string_dec k l) as [Hin | Hout].
  - now rewrite IH.
  - destruct H as [H | H]; [| contradiction]. subst x.
    rewrite first_seen_snoc_new by exact Hout.
    rewrite filter_app. simpl. rewrite String.eqb_refl. simpl.
    now rewrite app_nil_r.
Qed.

Section Groups.
Variable V : Type.
Variable f : string -> list V.

Lemma dict_mem_map key (keys : list string) :
  dict_mem key (map (fun k => (k, f k)) keys) = true <-> In key keys.
Proof.
  induction keys as [|x keys IH]; simpl; [split; [discriminate | tauto] |].
  rewrite orb_true_iff, IH, String.eqb_eq. tauto.
Qed.

Lemma dict_append_absent key v (keys : list string) :
  ~ In key keys ->
  dict_append key v (map (fun k => (k, f k)) keys)
  = map (fun k => (k, f k)) keys.
Proof.
  induction keys as [|x keys IH]; intros H; simpl; [reflexivity |].
  destruct (String.eqb_spec x key) as [E | E].
  - exfalso. apply H. now left.
  - rewrite IH; [reflexivity |]. intros Hin. apply H. now right.
Qed.

Lemma dict_append_present key v (keys : list string) :
  NoDup keys -> In key keys ->
  dict_append key v (map (fun k => (k, f k)) keys)
  = map (fun k => (k, if String.eqb k key then (f k ++ [v])%list else f k))
      keys.
Proof.
  induction keys as [|x keys IH]; intros Hnd Hin; [destruct Hin |].
  inversion Hnd as [|? ? Hx Hnd']; subst. simpl.
  destruct (String.eqb_spec x key) as [E | E].
  - subst x. f_equal. apply map_ext_in. intros k Hk.
    destruct (String.eqb_spec k key) as [E | E]; [congruence | reflexivity].
  - destruct Hin as [Hin | Hin]; [congruence |]. now rewrite IH.
Qed.

Lemma dict_append_new key v (d : dict (list V)) :
  dict_mem key d = false ->
  dict_append key v (d ++ [(key, [])])%list = (d ++ [(key, [v])])%list.
Proof.
  induction d as [|[k l] d IH]; simpl; intros H.
  - now rewrite String.eqb_refl.
  - apply orb_false_iff in H as [Hk Hd]. rewrite Hk. now rewrite IH.
Qed.
End Groups.

Lemma group_step_spec tcs tc :
  group_step
    (map (fun k => (k, filter (of_requirement k) tcs))
       (first_seen (map tc_requirementId tcs))) tc
  = map (fun k => (k, filter (of_requirement k) (tcs ++ [tc])%list))
      (first_seen (map tc_requirementId (tcs ++ [tc])%list)).
Proof.
  unfold group_step.
  set (key := tc_requirementId tc).
  set (keys := first_seen (map tc_requirementId tcs)).
  rewrite map_app. simpl (map tc_requirementId [tc]). fold key.
  destruct (in_dec string_dec key (map tc_requirementId tcs)) as [Hin | Hout].
  - assert (Hk : In key keys) by now apply first_seen_in.
    assert (Hm : dict_mem key (map (fun k => (k, filter (of_requirement k) tcs)) keys) = true)
      by now apply dict_mem_map.
    rewrite Hm. simpl negb. cbv iota.
    rewrite dict_append_present; [| apply first_seen_nodup | exact Hk].
    rewrite first_seen_snoc_old by exact Hin. fold keys.
    apply map_ext. intros k. f_equal. rewrite filter_app. simpl.
    change (of_requirement k tc) with (String.eqb key k).
    rewrite (String.eqb_sym key k).
    destruct (String.eqb k key); [reflexivity | now rewrite app_nil_r].
  - assert (Hk : ~ In key keys) by (intros H; apply Hout; now apply first_seen_in).
    assert (Hm : dict_mem key (map (fun k => (k, filter (of_requirement k) tcs)) keys) = false).
    { destruct (dict_mem key _) eqn:E; [| reflexivity].
      exfalso. apply Hk. now apply dict_mem_map in E. }
    rewrite Hm. simpl negb. cbv iota.
    rewrite dict_append_new by exact Hm.
    rewrite first_seen_snoc_new by exact Hout. fold keys.
    rewrite map_app. simpl. f_equal.
    + apply map_ext_in. intros k Hin. f_equal. rewrite filter_app. simpl.
      change (of_requirement k tc) with (String.eqb key k).
      destruct (String.eqb_spec key k) as [E | E];
        [subst k; contradiction | now rewrite app_nil_r].
    + f_equal. f_equal. rewrite filter_app. simpl.
      change (of_requirement key tc) with (String.eqb key key).
      rewrite String.eqb_refl.
      replace (filter (of_requirement key) tcs) with (@nil TestCase);
        [reflexivity |].
      symmetry. clear - Hout. induction tcs as [|x tcs IHt]; [reflexivity |].
      simpl. change (of_requirement key x)
        with (String.eqb (tc_requirementId x) key).
      destruct (String.eqb_spec (tc_requirementId x) key) as [E | E].
      * exfalso. apply Hout. left. exact E.
      * apply IHt. intros H. apply Hout. now right.
Qed.

Lemma group_fold_spec tcs2 :
  forall tcs1,
    fold_left group_step tcs2
      (map (fun k => (k, filter (of_requirement k) tcs1))
         (first_seen (map tc_requirementId tcs1)))
    = map (fun k => (k, filter (of_requirement k) (tcs1 ++ tcs2)%list))
        (first_seen (map tc_requirementId (tcs1 ++ tcs2)%list)).
Proof.
  induction tcs2 as [|tc tcs2 IH]; intros tcs1; simpl.
  - now rewrite app_nil_r.
  - rewrite group_step_spec, IH. now rewrite <- app_assoc.
Qed.

(** X13.  The grouping of lines 294-299 has one entry for each
    requirement id, in the order in which the ids first occur, and the
    entry of an id holds exactly the test cases with that id, in their
    order in the request. *)
Theorem group_by_requirement_spec tcs :
  group_by_requirement tcs
  = map (fun key => (key, filter (of_requirement key) tcs))
      (first_seen (map tc_requirementId tcs)).
Proof. apply (group_fold_spec tcs []). Qed.

Lemma dict_append_perm {V} key (v : V) (d : dict (list V)) :
  dict_mem key d = true ->
  Permutation (concat (map snd (dict_append key v d)))
    (v :: concat (map snd d)).
Proof.
  induction d as [|[k l] d IH]; simpl; intros H; [discriminate |].
  destruct (String.eqb k key) eqn:E; simpl.
  - rewrite <- app_assoc. simpl.
    symmetry. apply Permutation_middle.
  - simpl in H. rewrite (IH H). symmetry. apply Permutation_middle.
Qed.

Lemma dict_mem_app_self {V} key (d : dict (list V)) x :
  dict_mem key (d ++ [(key, x)])%list = true.
Proof.
  induction d as [|[k l] d IH]; simpl.
  - now rewrite String.eqb_refl.
  - rewrite IH. apply orb_true_r.
Qed.

Lemma group_step_perm d tc :
  Permutation (concat (map snd (group_step d tc)))
    (tc :: concat (map snd d)).
Proof.
  unfold group_step. destruct (dict_mem (tc_requirementId tc) d) eqn:E; simpl.
  - now apply dict_append_perm.
  - rewrite dict_append_perm by apply dict_mem_app_self.
    rewrite map_app, concat_app. simpl. now rewrite app_nil_r.
Qed.

Lemma group_fold_perm tcs :
  forall d,
    Permutation (concat (map snd (fold_left group_step tcs d)))
      (concat (map snd d) ++ tcs)%list.
Proof.
  induction tcs as [|tc tcs IH]; intros d; simpl.
  - now rewrite app_nil_r.
  - rewrite IH, group_step_perm. simpl. apply Permutation_middle.
Qed.

(** X14.  Grouping loses and repeats no test case: the test cases of
    all the groups, taken group after group, are those of the request
    up to their order. *)
Theorem grouping_keeps_every_test_case tcs :
  Permutation (concat (map snd (group_by_requirement tcs))) tcs.
Proof. apply (group_fold_perm tcs []). Qed.


(** ** The CSV export *)

Lemma double_quotes_plain s :
  has_char dquote s = false -> double_quotes s = s.
Proof.
  induction s as [|x s IH]; simpl; [reflexivity |].
  intros H. apply orb_false_iff in H as [Hx Hs]. now rewrite Hx, IH.
Qed.

Lemma has_char_double_quotes c s :
  has_char c (double_quotes s) = has_char c s.
Proof.
  induction s as [|x s IH]; simpl; [reflexivity |].
  destruct (Ascii.eqb x dquote) eqn:E; cbn [has_char]; rewrite IH.
  - apply Ascii.eqb_eq in E. subst x.
    destruct (Ascii.eqb dquote c); reflexivity.
  - reflexivity.
Qed.

(** A cell is written as it is, or between quotes with its quotes
    doubled when it has a comma, a quote or a line feed. *)
Lemma escape_cell_cases cell :
  escape_cell cell
  = if has_char "," cell || has_char dquote cell || has_char "010" cell
    then String dquote (double_quotes cell ++ String dquote "")
    else cell.
Proof.
  unfold escape_cell. destruct (has_char dquote cell) eqn:E; cbv zeta.
  - rewrite !has_char_double_quotes, E, orb_true_r. reflexivity.
  - now rewrite E, (double_quotes_plain cell E).
Qed.

Lemma plain_cut a b s1 s2 r1 r2 :
  has_char "," a = false -> has_char "010" a = false ->
  has_char "," b = false -> has_char "010" b = false ->
  is_separator s1 -> is_separator s2 ->
  a ++ String s1 r1 = b ++ String s2 r2 ->
  a = b /\ s1 = s2 /\ r1 = r2.
Proof.
  revert b. induction a as [|x a IH]; intros [|y b] Ha1 Ha2 Hb1 Hb2 Hs1 Hs2 E;
    simpl in *.
  - now inversion E.
  - inversion E. subst y. exfalso.
    apply orb_false_iff in Hb1 as [Hb1 _]. apply orb_false_iff in Hb2 as [Hb2 _].
    destruct Hs1 as [-> | ->]; discriminate.
  - inversion E. subst x. exfalso.
    apply orb_false_iff in Ha1 as [Ha1 _]. apply orb_false_iff in Ha2 as [Ha2 _].
    destruct Hs2 as [-> | ->]; discriminate.
  - inversion E. subst y.
    apply orb_false_iff in Ha1 as [_ Ha1]. apply orb_false_iff in Ha2 as [_ Ha2].
    apply orb_false_iff in Hb1 as [_ Hb1]. apply orb_false_iff in Hb2 as [_ Hb2].
    destruct (IH b Ha1 Ha2 Hb1 Hb2 Hs1 Hs2 H1) as (-> & -> & ->). auto.
Qed.

Lemma quoted_cut a :
  forall b s1 s2 r1 r2,
    s1 <> dquote -> s2 <> dquote ->
    double_quotes a ++ String dquote (String s1 r1)
    = double_quotes b ++ String dquote (String s2 r2) ->
    a = b /\ s1 = s2 /\ r1 = r2.
Proof.
  induction a as [|x a IH]; intros [|y b] s1 s2 r1 r2 H1 H2 E; simpl in E.
  - now inversion E.
  - destruct (Ascii.eqb y dquote) eqn:Ey; simpl in E; inversion E; subst.
    + congruence.
    + rewrite Ascii.eqb_refl in Ey. discriminate.
  - destruct (Ascii.eqb x dquote) eqn:Ex; simpl in E; inversion E; subst.
    + congruence.
    + rewrite Ascii.eqb_refl in Ex. discriminate.
  - destruct (Ascii.eqb x dquote) eqn:Ex, (Ascii.eqb y dquote) eqn:Ey;
      simpl in E; inversion E; subst;
      try (rewrite Ascii.eqb_refl in Ex; discriminate);
      try (rewrite Ascii.eqb_refl in Ey; discriminate);
      match goal with
      | H : double_quotes a ++ _ = double_quotes b ++ _ |- _ =>
          destruct (IH _ _ _ _ _ H1 H2 H) as (-> & -> & ->)
      end.
    + apply Ascii.eqb_eq in Ex, Ey. subst. auto.
    + auto.
Qed.

Lemma separator_not_quote c : is_separator c -> c <> dquote.
Proof. intros [-> | ->]; discriminate. Qed.

(** A written cell and the separator after it are read back in one
    way. *)
Lemma cell_cut a b s1 s2 r1 r2 :
  is_separator s1 -> is_separator s2 ->
  escape_cell a ++ String s1 r1 = escape_cell b ++ String s2 r2 ->
  a = b /\ s1 = s2 /\ r1 = r2.
Proof.
  intros Hs1 Hs2. rewrite !escape_cell_cases.
  destruct (has_char "," a || has_char dquote a || has_char "010" a) eqn:Ea,
           (has_char "," b || has_char dquote b || has_char "010" b) eqn:Eb.
  - simpl. rewrite !str_app_assoc. simpl. intros E. inversion E.
    apply quoted_cut in H0; auto using separator_not_quote.
  - apply orb_false_iff in Eb as [Eb Eb3]. apply orb_false_iff in Eb as [Eb1 Eb2].
    simpl. intros E. exfalso. destruct b as [|y b]; simpl in *; inversion E.
    + subst. destruct Hs2 as [H | H]; discriminate H.
    + subst y. apply orb_false_iff in Eb2 as [Eb2 _]. discriminate Eb2.
  - apply orb_false_iff in Ea as [Ea Ea3]. apply orb_false_iff in Ea as [Ea1 Ea2].
    simpl. intros E. exfalso. destruct a as [|x a]; simpl in *; inversion E.
    + subst. destruct Hs1 as [H | H]; discriminate H.
    + subst x. apply orb_false_iff in Ea2 as [Ea2 _]. discriminate Ea2.
  - apply orb_false_iff in Ea as [Ea Ea3]. apply orb_false_iff in Ea as [Ea1 Ea2].
    apply orb_false_iff in Eb as [Eb Eb3]. apply orb_false_iff in Eb as [Eb1 Eb2].
    now apply plain_cut.
Qed.

Lemma csv_line_cons cell row rest :
  row <> [] ->
  csv_line (cell :: row) ++ rest
  = escape_cell cell ++ String "," (csv_line row ++ rest).
Proof.
  intros H. destruct row as [|c row]; [congruence |].
  unfold csv_line. cbn [map str_join]. now rewrite !str_app_assoc.
Qed.

Lemma csv_line_single cell rest :
  csv_line [cell] ++ rest = escape_cell cell ++ String "010" rest.
Proof. unfold csv_line. cbn [map str_join]. now rewrite str_app_assoc. Qed.

Lemma csv_line_cut row1 :
  forall row2 rest1 rest2,
    row1 <> [] -> row2 <> [] ->
    csv_line row1 ++ rest1 = csv_line row2 ++ rest2 ->
    row1 = row2 /\ rest1 = rest2.
Proof.
  induction row1 as [|c1 row1 IH]; intros [|c2 row2] rest1 rest2 H1 H2 E;
    try congruence.
  destruct row1 as [|d1 row1], row2 as [|d2 row2].
  - rewrite !csv_line_single in E.
    apply cell_cut in E as (-> & _ & ->); [auto | now right | now right].
  - rewrite csv_line_single, (csv_line_cons c2 (d2 :: row2)) in E
      by discriminate.
    apply cell_cut in E as (_ & E & _); [discriminate | now right | now left].
  - rewrite csv_line_single, (csv_line_cons c1 (d1 :: row1)) in E
      by discriminate.
    apply cell_cut in E as (_ & E & _); [discriminate | now left | now right].
  - rewrite (csv_line_cons c1 (d1 :: row1)), (csv_line_cons c2 (d2 :: row2))
      in E by discriminate.
    apply cell_cut in E as (-> & _ & E); [| now left | now left].
    apply IH in E as [E ->]; [| discriminate | discriminate].
    now rewrite E.
Qed.

Lemma csv_line_nonempty row rest : csv_line row ++ rest <> "".
Proof.
  unfold csv_line. rewrite str_app_assoc.
  destruct (str_join "," (map escape_cell row)); discriminate.
Qed.

Lemma csv_content_cut rows1 :
  forall rows2,
    Forall (fun row => row <> []) rows1 ->
    Forall (fun row => row <> []) rows2 ->
    csv_content rows1 = csv_content rows2 -> rows1 = rows2.
Proof.
  induction rows1 as [|r1 rows1 IH]; intros [|r2 rows2] H1 H2 E; simpl in E.
  - reflexivity.
  - exfalso. symmetry in E. now apply csv_line_nonempty in E.
  - exfalso. now apply csv_line_nonempty in E.
  - inversion H1; inversion H2; subst.
    apply csv_line_cut in E as [-> E]; auto.
    now rewrite (IH rows2).
Qed.

(** X15.  The CSV text can be read back in one way only: two lists of
    rows, none of them empty, that give the same text are the same
    rows with the same cells, whatever commas, quotes and line feeds
    the cells hold. *)
Theorem csv_content_unambiguous rows1 rows2 :
  Forall (fun row => row <> []) rows1 ->
  Forall (fun row => row <> []) rows2 ->
  csv_content rows1 = csv_content rows2 -> rows1 = rows2.
Proof. apply csv_content_cut. Qed.

Lemma csv_content_unambiguous_witness :
  Forall (fun row : list string => row <> []) [["a,b"; "c"]; ["d"]] /\
  csv_content [["a,b"; "c"]; ["d"]] = csv_content [["a,b"; "c"]; ["d"]] /\
  [["a,b"; "c"]; ["d"]] = [["a,b"; "c"]; ["d"]].
Proof.
  assert (H : Forall (fun row : list string => row <> []) [["a,b"; "c"]; ["d"]])
    by (repeat constructor; discriminate).
  split; [exact H |]. split; [reflexivity |].
  apply (csv_content_unambiguous [["a,b"; "c"]; ["d"]] [["a,b"; "c"]; ["d"]] H H).
  reflexivity.
Defined.

(** X16.  The file of [download_selected_test_cases] starts with the
    header line and tells the selections apart: two selections that
    give the same file have the same rows, so the same ids,
    descriptions, preconditions, joined steps, expected results,
    postconditions and types, in the same order. *)
Theorem selected_csv_determines_rows tcs1 tcs2 :
  selected_csv tcs1 = selected_csv tcs2 ->
  map csv_row tcs1 = map csv_row tcs2.
Proof.
  unfold selected_csv. intros E.
  assert (Hne : forall tcs,
             Forall (fun row => row <> []) (csv_headers :: map csv_row tcs)).
  { intros tcs. constructor; [discriminate |].
    apply Forall_forall. intros row Hin. apply in_map_iff in Hin as (tc & <- & _).
    discriminate. }
  apply csv_content_cut in E; auto. now inversion E.
Qed.

Lemma selected_csv_determines_rows_witness :
  selected_csv
    [mkTestCase "tc-1" "TC_001" "Lock, then unlock" "Ignition on"
       ["Press lock"; "Press unlock"] "Doors open" "Blackbox" "None" "REQ-1 v1"]
  = selected_csv
      [mkTestCase "tc-9" "TC_001" "Lock, then unlock" "Ignition on"
         ["Press lock"; "Press unlock"] "Doors open" "Blackbox" "None"
         "REQ-1 v1"] /\
  map csv_row
    [mkTestCase "tc-1" "TC_001" "Lock, then unlock" "Ignition on"
       ["Press lock"; "Press unlock"] "Doors open" "Blackbox" "None" "REQ-1 v1"]
  = map csv_row
      [mkTestCase "tc-9" "TC_001" "Lock, then unlock" "Ignition on"
         ["Press lock"; "Press unlock"] "Doors open" "Blackbox" "None"
         "REQ-1 v1"].
Proof.
  split; [reflexivity |].
  apply (selected_csv_determines_rows
           [mkTestCase "tc-1" "TC_001" "Lock, then unlock" "Ignition on"
              ["Press lock"; "Press unlock"] "Doors open" "Blackbox" "None"
              "REQ-1 v1"]
           [mkTestCase "tc-9" "TC_001" "Lock, then unlock" "Ignition on"
              ["Press lock"; "Press unlock"] "Doors open" "Blackbox" "None"
              "REQ-1 v1"]).
  reflexivity.
Defined.


(** ** What the marker and boundary patterns accept *)

Lemma lit_match_ic l :
  forall a pv rest,
    str_lower a = str_lower l ->
    lit_match true l pv (a ++ rest) = Some (last_char pv a, rest).
Proof.
  induction l as [|x l IH]; intros [|c a] pv rest E; simpl in E;
    try discriminate; [reflexivity |].
  inversion E as [[Ec Ea]]. cbn [append lit_match last_char].
  unfold char_eq. rewrite Ec, Ascii.eqb_refl. now apply IH.
Qed.

Lemma re_run_lit_ic l a rest pv gs k :
  str_lower a = str_lower l ->
  re_run true (Lit l) pv (a ++ rest) gs k = k (last_char pv a) rest gs.
Proof. intros E. simpl. now rewrite lit_match_ic. Qed.

Lemma re_run_wordb ic pv s gs k :
  re_run ic WordB pv s gs k
  = if at_word_boundary pv s then k pv s gs else None.
Proof. reflexivity. Qed.

Lemma search_from_later ic r pre :
  forall pv s,
    matched (re_run ic r (last_char pv pre) s [] accept) = true ->
    matched (search_from ic r pv (pre ++ s)) = true.
Proof.
  induction pre as [|c pre IH]; intros pv s H.
  - simpl in *. destruct s; simpl;
      destruct (re_run ic r pv _ [] accept); auto; discriminate.
  - cbn [append search_from].
    destruct (re_run ic r pv (String c (pre ++ s)) [] accept); [reflexivity |].
    now apply IH.
Qed.

Lemma lower_a_word c : to_lower c = "a"%char -> is_word c = true.
Proof. by_cases c. Qed.

Lemma lower_s_word c : to_lower c = "s"%char -> is_word c = true.
Proof. by_cases c. Qed.

Lemma lower_r_not_space c : to_lower c = "r"%char -> is_space c = false.
Proof. by_cases c. Qed.

(** The line has no word character on the side of the marker. *)
Lemma word_edge_before pre :
  match last_char None pre with Some c => is_word c | None => false end = false ->
  forall x rest, is_word x = true ->
  at_word_boundary (last_char None pre) (String x rest) = true.
Proof. intros H x rest Hx. unfold at_word_boundary. now rewrite H, Hx. Qed.

(** X17.  The region marker is found wherever it stands in a line, in
    any letter case and with any whitespace between its two words,
    provided no word character touches it on either side. *)
Theorem marker_found_in_any_case pre a ws r post :
  str_lower a = "active" -> str_lower r = "requirements" ->
  run_of is_space ws = true ->
  match last_char None pre with Some c => is_word c | None => false end = false ->
  match post with String c _ => is_word c | "" => false end = false ->
  is_marker (pre ++ a ++ ws ++ r ++ post) = true.
Proof.
  intros Ha Hr Hws Hpre Hpost. unfold is_marker, re_search.
  apply search_from_later. unfold re_marker. unseq.
  destruct a as [|a0 a']; [discriminate |].
  destruct r as [|r0 r']; [discriminate |].
  assert (Ha0 : is_word a0 = true)
    by (apply lower_a_word; simpl in Ha; now inversion Ha).
  assert (Hr0 : is_space r0 = false)
    by (apply lower_r_not_space; simpl in Hr; now inversion Hr).
  rewrite re_run_seq, re_run_wordb.
  change ((String a0 a') ++ ws ++ String r0 r' ++ post)
    with (String a0 (a' ++ ws ++ String r0 r' ++ post)) at 1.
  rewrite word_edge_before by assumption.
  rewrite re_run_seq, (re_run_lit_ic "Active") by exact Ha.
  rewrite re_run_seq, re_run_rep.
  erewrite rep_greedy_max;
    [reflexivity | apply (run_of_inv _ _ Hws) | eapply run_of_length; eassumption
    | simpl; now rewrite Hr0 |].
  rewrite re_run_seq, (re_run_lit_ic "Requirements") by exact Hr.
  rewrite re_run_wordb.
  assert (Hlow : forall s p, str_lower s = "requirements" ->
                   exists c, last_char p s = Some c /\ is_word c = true).
  { intros s p Hs.
    do 12 (destruct s as [|? s]; [discriminate |]).
    destruct s; [| discriminate]. simpl in *. inversion Hs.
    eexists. split; [reflexivity |]. now apply lower_s_word. }
  destruct (Hlow (String r0 r')
              (last_char (last_char (last_char None pre) (String a0 a')) ws) Hr)
    as (c & Ec & Hc).
  unfold at_word_boundary. rewrite Ec, Hc.
  destruct post as [|p0 post']; [reflexivity |].
  now rewrite Hpost.
Qed.

Lemma marker_found_in_any_case_witness :
  str_lower "ACTIVE" = "active" /\ str_lower "Requirements" = "requirements" /\
  run_of is_space "   " = true /\
  match last_char None "3.2 " with Some c => is_word c | None => false end
  = false /\
  match " (cont.)" with String c _ => is_word c | "" => false end = false /\
  is_marker ("3.2 " ++ "ACTIVE" ++ "   " ++ "Requirements" ++ " (cont.)") = true.
Proof.
  do 5 (split; [reflexivity |]).
  apply (marker_found_in_any_case "3.2 " "ACTIVE" "   " "Requirements"
           " (cont.)"); reflexivity.
Defined.


Lemma rep_greedy_bounded {A : Type} (p : ascii -> bool)
      (k : option ascii -> string -> option A) (w rest : string) (x : A) :
  forall lo h pv,
    all_chars p w = true -> lo <= String.length w -> String.length w <= h ->
    stops p rest = true ->
    k (last_char pv w) rest = Some x ->
    rep_match true p lo (Some h) pv (w ++ rest) k = Some x.
Proof.
  induction w as [|c w IH]; intros lo h pv Hall Hlo Hhi Hstop Hk; simpl in *.
  - assert (lo = 0) by lia. subst lo.
    destruct rest as [|d rest']; simpl; [exact Hk |].
    simpl in Hstop. apply negb_true_iff in Hstop. rewrite Hstop. exact Hk.
  - apply andb_true_iff in Hall as [Hc Hw]. rewrite Hc.
    destruct h as [|h]; [lia |]. simpl.
    rewrite (IH (pred lo) h (Some c)); auto; lia.
Qed.

Lemma rep_sound_bounded {A : Type} (p : ascii -> bool)
      (k : option ascii -> string -> option A) (s : string) (x : A) :
  forall lo h pv,
    rep_match true p lo (Some h) pv s k = Some x ->
    exists w rest,
      s = w ++ rest /\ all_chars p w = true /\ String.length w <= h /\
      k (last_char pv w) rest = Some x.
Proof.
  induction s as [|c s IH]; intros lo h pv H; simpl in H.
  - destruct lo; [| discriminate]. exists "", "". simpl. repeat split; auto. lia.
  - destruct (p c) eqn:Hc; simpl in H.
    + destruct h as [|h]; simpl in H.
      * destruct lo; [| discriminate].
        exists "", (String c s). simpl. repeat split; auto.
      * destruct (rep_match true p (pred lo) (Some h) (Some c) s k) eqn:E.
        -- inversion H; subst.
           destruct (IH _ _ _ E) as (w & rest & Es & Hall & Hlen & Hk).
           exists (String c w), rest. simpl. rewrite Hc, Hall, Es.
           repeat split; auto. lia.
        -- simpl in H. destruct lo; [| discriminate].
           exists "", (String c s). simpl. repeat split; auto. lia.
    + destruct lo; [| discriminate].
      exists "", (String c s). simpl. repeat split; auto. lia.
Qed.

Lemma space_not_label_colon : is_label_char ":" = false.
Proof. reflexivity. Qed.

Lemma digit_not_upper c : is_digit c = true -> is_upper c = false.
Proof. by_cases c. Qed.

Lemma digit_not_dot c : is_digit c = true -> c <> "."%char.
Proof. by_cases c. Qed.

Lemma re_run_alt ic r1 r2 pv s gs k :
  re_run ic (Alt r1 r2) pv s gs k
  = or_else (re_run ic r1 pv s gs k) (re_run ic r2 pv s gs k).
Proof. reflexivity. Qed.

Lemma re_run_cls ic p c s pv gs k :
  p c = true -> re_run ic (Cls p) pv (String c s) gs k = k (Some c) s gs.
Proof. intros H. simpl. now rewrite H. Qed.

Lemma matched_or_else {A} (a b : option A) :
  matched a = true \/ matched b = true -> matched (or_else a b) = true.
Proof. destruct a; simpl; [reflexivity |]. now intros [H | H]. Qed.

Lemma rep_greedy_max_matched {A : Type} (p : ascii -> bool)
      (k : option ascii -> string -> option A) (w rest : string) lo pv :
  all_chars p w = true -> lo <= String.length w -> stops p rest = true ->
  matched (k (last_char pv w) rest) = true ->
  matched (rep_match true p lo None pv (w ++ rest) k) = true.
Proof.
  intros Hall Hlo Hstop Hk.
  destruct (k (last_char pv w) rest) as [x|] eqn:E; [| discriminate].
  now rewrite (rep_greedy_max p k w rest x lo pv).
Qed.

Lemma rep_greedy_bounded_matched {A : Type} (p : ascii -> bool)
      (k : option ascii -> string -> option A) (w rest : string) lo h pv :
  all_chars p w = true -> lo <= String.length w -> String.length w <= h ->
  stops p rest = true ->
  matched (k (last_char pv w) rest) = true ->
  matched (rep_match true p lo (Some h) pv (w ++ rest) k) = true.
Proof.
  intros Hall Hlo Hhi Hstop Hk.
  destruct (k (last_char pv w) rest) as [x|] eqn:E; [| discriminate].
  now rewrite (rep_greedy_bounded p k w rest x lo h pv).
Qed.

(** A greedy quantifier before a rest of pattern that accepts anywhere
    matches as soon as its minimum is there. *)
Lemma rep_greedy_open {A : Type} (p : ascii -> bool)
      (k : option ascii -> string -> option A) (w rest : string) :
  (forall pv s, matched (k pv s) = true) ->
  forall lo pv,
    all_chars p w = true -> lo <= String.length w ->
    matched (rep_match true p lo None pv (w ++ rest) k) = true.
Proof.
  intros Hk. induction w as [|c w IH]; intros lo pv Hall Hlo; simpl in *.
  - assert (lo = 0) by lia. subst lo.
    destruct rest as [|d rest']; simpl; [apply Hk |].
    destruct (p d); simpl; [| apply Hk].
    apply matched_or_else. right. apply Hk.
  - apply andb_true_iff in Hall as [Hc Hw]. rewrite Hc. simpl.
    apply matched_or_else. left. apply IH; auto. lia.
Qed.

(** X18.  The two shapes of a boundary line.  A numbered heading (one
    or two digits, a dot, digits, whitespace, then anything) is a
    boundary line, and so is any line that starts with a capital letter
    followed by letters and whitespace up to a colon, such as a wrapped
    title that reads [Note: ...]. *)
Theorem boundary_shapes d n ws rest c w rest' :
  run_of is_digit d = true -> String.length d <= 2 ->
  run_of is_digit n = true -> run_of is_space ws = true ->
  is_upper c = true -> run_of is_label_char w = true ->
  is_boundary (d ++ "." ++ n ++ ws ++ rest) = true /\
  is_boundary (String c (w ++ ":" ++ rest')) = true.
Proof.
  intros Hd Ld Hn Hws Hc Hw.
  unfold is_boundary, re_match, re_boundary. unseq.
  split; rewrite re_run_alt; apply matched_or_else.
  - left. rewrite re_run_seq, re_run_bol, re_run_seq, re_run_rep.
    apply rep_greedy_bounded_matched;
      [apply (run_of_inv _ _ Hd) | eapply run_of_length; eassumption
      | exact Ld | reflexivity |].
    rewrite re_run_seq, re_run_lit, re_run_seq, re_run_rep.
    apply rep_greedy_max_matched;
      [apply (run_of_inv _ _ Hn) | eapply run_of_length; eassumption
      | apply (stops_run _ is_space); [apply space_not_digit | exact Hws] |].
    rewrite re_run_rep.
    apply rep_greedy_open;
      [reflexivity | apply (run_of_inv _ _ Hws)
      | eapply run_of_length; eassumption].
  - right. rewrite re_run_seq, re_run_bol, re_run_seq.
    rewrite re_run_cls by exact Hc.
    rewrite re_run_seq, re_run_rep.
    apply rep_greedy_max_matched;
      [apply (run_of_inv _ _ Hw) | eapply run_of_length; eassumption
      | reflexivity |].
    now rewrite re_run_lit.
Qed.

Lemma boundary_shapes_witness :
  run_of is_digit "12" = true /\ String.length "12" <= 2 /\
  run_of is_digit "3" = true /\ run_of is_space "  " = true /\
  is_upper "N" = true /\ run_of is_label_char "ote" = true /\
  is_boundary ("12" ++ "." ++ "3" ++ "  " ++ "Diagnostics") = true /\
  is_boundary (String "N" ("ote" ++ ":" ++ " see REQ-4 v1")) = true.
Proof.
  split; [reflexivity |]. split; [simpl; lia |].
  do 4 (split; [reflexivity |]).
  apply (boundary_shapes "12" "3" "  " "Diagnostics" "N" "ote"
           " see REQ-4 v1"); reflexivity.
Defined.

(** X19.  A numbered heading with three digits or more before the dot
    is not a boundary line: section [100.1] and later do not end the
    region, whatever follows the digits. *)
Theorem long_section_number_not_boundary d rest :
  all_chars is_digit d = true -> 3 <= String.length d ->
  is_boundary (d ++ rest) = false.
Proof.
  intros Hd Ld.
  destruct d as [|d1 [|d2 [|d3 d]]]; simpl in Ld; try lia.
  simpl in Hd. apply andb_true_iff in Hd as [H1 Hd].
  apply andb_true_iff in Hd as [H2 Hd]. apply andb_true_iff in Hd as [H3 _].
  unfold is_boundary, re_match, re_boundary. unseq.
  rewrite re_run_alt.
  match goal with
  | |- matched (or_else ?a ?b) = false =>
      destruct a as [g|] eqn:Ea; [exfalso | destruct b as [g|] eqn:Eb; [exfalso | reflexivity]]
  end.
  - rewrite re_run_seq, re_run_bol, re_run_seq, re_run_rep in Ea.
    apply rep_sound_bounded in Ea as (w & r & Es & Hw & Lw & Hk).
    rewrite re_run_seq in Hk.
    apply re_run_lit_sound in Hk as (pv' & r' & Er & _). subst r.
    destruct w as [|w1 [|w2 [|w3 w]]]; simpl in Lw; try lia;
      simpl in Es; inversion Es; subst.
    + now apply (digit_not_dot _ H1).
    + now apply (digit_not_dot _ H2).
    + now apply (digit_not_dot _ H3).
  - rewrite re_run_seq, re_run_bol, re_run_seq in Eb.
    simpl in Eb. rewrite (digit_not_upper _ H1) in Eb. discriminate.
Qed.

Lemma long_section_number_not_boundary_witness :
  all_chars is_digit "100" = true /\ 3 <= String.length "100" /\
  is_boundary ("100" ++ ".1 Appendix") = false.
Proof.
  split; [reflexivity |]. split; [simpl; lia |].
  apply (long_section_number_not_boundary "100" ".1 Appendix");
    [reflexivity | simpl; lia].
Defined.
